(** * mini_ai.markov: a character-level order-k Markov chain

    A shallow embedding of [mini_ai/markov.py] (class [MarkovChain]) and of
    the Python built-ins it calls, followed by the properties of training,
    generation and serialisation.

    The embedded copy is
    [release_gate_after_best_patch_177182/python-ai-stdlib-oracle_run_09];
    the sibling copies of the same module that behave differently are
    embedded further down, one module per copy.

    A Python [str] is a [string] and a character is a [str] of length one,
    as in Python; the alphabet is the 8-bit one of [ascii], and nothing in
    the module looks inside a character.  A Python [int] is a [Z]. *)

From Stdlib Require Import ZArith List String Ascii Bool Lia QArith.
From Stdlib Require Import Permutation.
Import ListNotations.
Local Open Scope string_scope.
Local Open Scope Z_scope.

(* ================================================================== *)
(** ** Python values, exceptions and built-ins *)
(* ================================================================== *)

(** The exceptions the module can raise, directly or through a built-in. *)
Inductive exn : Type :=
| ValueError
| KeyError
| IndexError
| TypeError
| OverflowError.

Inductive result (A : Type) : Type :=
| Ok (a : A)
| Raise (e : exn).
Arguments Ok {A} a.
Arguments Raise {A} e.

Definition rbind {A B} (r : result A) (k : A -> result B) : result B :=
  match r with
  | Ok a => k a
  | Raise e => Raise e
  end.

Notation "x <- e ;; k" := (rbind e (fun x => k))
  (at level 61, e at next level, right associativity).

(** [for x in xs: body], where the body may raise. *)
Fixpoint for_each {S X} (body : S -> X -> result S) (xs : list X) (s : S)
  : result S :=
  match xs with
  | [] => Ok s
  | x :: xs' => s' <- body s x ;; for_each body xs' s'
  end.

(** [len(s)] *)
Definition len (s : string) : Z := Z.of_nat (String.length s).

(** [range(n)]: empty when [n <= 0]. *)
Definition range (n : Z) : list Z := map Z.of_nat (seq 0 (Z.to_nat n)).

(** How a slice bound is brought into [0 .. n]: a negative bound counts
    from the end, and everything is clipped. *)
Definition slice_bound (n : Z) (dflt : Z) (b : option Z) : Z :=
  match b with
  | None => dflt
  | Some i => if i <? 0 then Z.max 0 (n + i) else Z.min i n
  end.

(** [s[start:stop]] on a [str]; [None] is an omitted bound. *)
Definition str_slice (s : string) (start stop : option Z) : string :=
  let n := len s in
  let a := slice_bound n 0 start in
  let b := slice_bound n n stop in
  substring (Z.to_nat a) (Z.to_nat (b - a)) s.

(** [s[i]] on a [str]: a string of one character, or [IndexError]. *)
Definition str_index (s : string) (i : Z) : result string :=
  let n := len s in
  let j := if i <? 0 then i + n else i in
  if (0 <=? j) && (j <? n) then
    match String.get (Z.to_nat j) s with
    | Some c => Ok (String c EmptyString)
    | None => Raise IndexError
    end
  else Raise IndexError.

(** [list(s)]: the characters of [s], each a string of length one. *)
Fixpoint list_of_str (s : string) : list string :=
  match s with
  | EmptyString => []
  | String c s' => String c EmptyString :: list_of_str s'
  end.

(** [''.join(parts)] *)
Definition join (parts : list string) : string := String.concat "" parts.

(** [l[start:]] on a list. *)
Definition list_slice_from {A} (l : list A) (start : Z) : list A :=
  let n := Z.of_nat (List.length l) in
  skipn (Z.to_nat (slice_bound n 0 (Some start))) l.

(** A [dict] with [str] keys.  Python dictionaries keep their keys in
    insertion order and [list(d.keys())] exposes that order to
    [random.choice], so the dictionary is an association list: a new key goes
    to the end, an existing key keeps its place. *)
Definition dict (V : Type) : Type := list (string * V).

Fixpoint dict_get {V} (k : string) (d : dict V) : option V :=
  match d with
  | [] => None
  | (k', v) :: d' => if String.eqb k' k then Some v else dict_get k d'
  end.

(** [k in d] *)
Definition dict_contains {V} (k : string) (d : dict V) : bool :=
  match dict_get k d with
  | Some _ => true
  | None => false
  end.

(** [d[k]] as an expression: [KeyError] on a missing key. *)
Definition dict_getitem {V} (k : string) (d : dict V) : result V :=
  match dict_get k d with
  | Some v => Ok v
  | None => Raise KeyError
  end.

(** [d[k] = v] *)
Fixpoint dict_set {V} (k : string) (v : V) (d : dict V) : dict V :=
  match d with
  | [] => [(k, v)]
  | (k', v') :: d' =>
      if String.eqb k' k then (k', v) :: d' else (k', v') :: dict_set k v d'
  end.

Definition dict_keys {V} (d : dict V) : list string := map fst d.
Definition dict_values {V} (d : dict V) : list V := map snd d.

(* ================================================================== *)
(** ** The model *)
(* ================================================================== *)

(** [self.transitions]: context -> next character -> count. *)
Definition table : Type := dict (dict Z).

Record MarkovChain : Type := mkMarkovChain {
  order : Z;
  transitions : table
}.

(** [MarkovChain.__init__] *)
Definition init (order : Z) : result MarkovChain :=
  if order <=? 0 then Raise ValueError
  else Ok {| order := order; transitions := [] |}.

(** One iteration of the loop of [MarkovChain.train]. *)
Definition train_step (order : Z) (text : string) (transitions : table) (i : Z)
  : result table :=
  let context := str_slice text (Some i) (Some (i + order)) in
  next_char <- str_index text (i + order) ;;
  let transitions :=
    if negb (dict_contains context transitions)
    then dict_set context ([] : dict Z) transitions else transitions in
  inner <- dict_getitem context transitions ;;
  let transitions :=
    if negb (dict_contains next_char inner)
    then dict_set context (dict_set next_char 0 inner) transitions
    else transitions in
  inner <- dict_getitem context transitions ;;
  n <- dict_getitem next_char inner ;;
  Ok (dict_set context (dict_set next_char (n + 1) inner) transitions).

(** [MarkovChain.train] *)
Definition train (self : MarkovChain) (text : string) : result MarkovChain :=
  t <- for_each (train_step (order self) text)
         (range (len text - order self)) (transitions self) ;;
  Ok {| order := order self; transitions := t |}.

(** A sequence of [train] calls on one model. *)
Definition train_all (self : MarkovChain) (texts : list string)
  : result MarkovChain :=
  for_each train texts self.

(* ================================================================== *)
(** ** The [random] module *)
(* ================================================================== *)

(** The module-level generator of Python's [random] is one hidden state
    shared by every call.  Its bit-level algorithm is not part of this
    repository, so it is an interface: a state type, the two ways the source
    seeds it, and the two primitive draws behind [choice], [randint] and
    [choices], with their ranges.  [random()] yields a double [k / 2^53]
    with [0 <= k < 2^53] (53 random bits scaled by [2^-53]); the field
    [random] gives the numerator [k]. *)
Class RandomSource : Type := {
  rng : Type;
  seed_int : Z -> rng;
  seed_str : string -> rng;
  randbelow : Z -> rng -> Z * rng;
  random : rng -> Z * rng;
  randbelow_range : forall n g, 0 < n -> 0 <= fst (randbelow n g) < n;
  random_range : forall g, 0 <= fst (random g) < 2 ^ 53
}.

(** [itertools.accumulate(weights)]: the running sums. *)
Fixpoint accumulate_from (acc : Z) (ws : list Z) : list Z :=
  match ws with
  | [] => []
  | w :: ws' => (acc + w) :: accumulate_from (acc + w) ws'
  end.

Definition accumulate (ws : list Z) : list Z := accumulate_from 0 ws.

(** [sum(ws)] *)
Definition sum (ws : list Z) : Z := fold_left Z.add ws 0.

(** *** Double-precision arithmetic of [random.choices]

    [choices] leaves the integers at two places: [cum_weights[-1] + 0.0]
    converts the sum of the weights to a float, and [random() * total] is
    a float product.  Both round to the nearest double, ties to even, and
    both values are integers scaled by a power of two, so the rounding is
    integer arithmetic. *)

(** The nearest integer with at most 53 significant bits, ties to the even
    significand, for [0 <= n]: what rounding to a double does to an integer
    (and, scaled by [2^-53], to the numerator of a product with
    [random()]). *)
Definition round53 (n : Z) : Z :=
  if n <? 2 ^ 53 then n
  else
    let e := Z.log2 n - 52 in
    let q := n / 2 ^ e in
    let r := n mod 2 ^ e in
    let half := 2 ^ (e - 1) in
    let m := if r <? half then q
             else if half <? r then q + 1
             else if Z.even q then q else q + 1 in
    m * 2 ^ e.

(** The first integer that no longer converts: half-way between the largest
    double, [2^1024 - 2^971], and [2^1024]. *)
Definition float_max_int : Z := 2 ^ 1024 - 2 ^ 970.

(** [n + 0.0] for an [int] [n]: [OverflowError] (int too large to convert to
    float) from [float_max_int] on, else the nearest double, which is an
    integer again. *)
Definition to_float (n : Z) : result Z :=
  if float_max_int <=? Z.abs n then Raise OverflowError
  else Ok (Z.sgn n * round53 (Z.abs n)).

(** [random() * total] for [random() = k / 2^53] and an integer-valued
    double [total >= 0]: the exact product [k * total / 2^53] rounded to a
    double.  The result is given by its numerator over [2^53]. *)
Definition mul_random (k total : Z) : Z := round53 (k * total).

(** [x < y] for a float [x], given by its numerator over [2^53], and an
    integer [y]: Python compares the two exactly. *)
Definition lt_float_int (x : Z) (y : Z) : bool := x <? y * 2 ^ 53.

(** [bisect.bisect(a, x, lo, hi)]: the binary search of the library,
    [while lo < hi: mid = (lo + hi) // 2; if x < a[mid]: hi = mid
    else: lo = mid + 1], with the number of iterations bounded by [fuel]. *)
Fixpoint bisect_loop (fuel : nat) (a : list Z) (x : Z) (lo hi : Z) : Z :=
  match fuel with
  | O => lo
  | S fuel' =>
      if lo <? hi then
        let mid := (lo + hi) / 2 in
        if lt_float_int x (nth (Z.to_nat mid) a 0)
        then bisect_loop fuel' a x lo mid
        else bisect_loop fuel' a x (mid + 1) hi
      else lo
  end.

Definition bisect (a : list Z) (x : Z) (lo hi : Z) : Z :=
  bisect_loop (S (Z.to_nat (hi - lo))) a x lo hi.

Section Random.
Context {R : RandomSource}.

(** A computation that reads and advances the generator and may raise.
    The generator is global: what a call did to it before raising stays
    done. *)
Definition M (A : Type) : Type := rng -> result A * rng.

Definition mret {A} (a : A) : M A := fun g => (Ok a, g).

Definition mbind {A B} (m : M A) (k : A -> M B) : M B :=
  fun g =>
    match m g with
    | (Ok a, g') => k a g'
    | (Raise e, g') => (Raise e, g')
    end.

Definition raise {A} (e : exn) : M A := fun g => (Raise e, g).

Definition lift {A} (r : result A) : M A := fun g => (r, g).

(** [random.seed(n)] for an [int], [random.seed(s)] for a [str]. *)
Definition seed_with_int (n : Z) : M unit := fun _ => (Ok tt, seed_int n).
Definition seed_with_str (s : string) : M unit := fun _ => (Ok tt, seed_str s).

(** [random.choice(seq)]: [seq[randbelow(len(seq))]], [IndexError] on an
    empty sequence. *)
Definition choice {A} (seq : list A) : M A :=
  match seq with
  | [] => raise IndexError
  | _ :: _ =>
      fun g =>
        let (i, g') := randbelow (Z.of_nat (List.length seq)) g in
        match nth_error seq (Z.to_nat i) with
        | Some a => (Ok a, g')
        | None => (Raise IndexError, g')
        end
  end.

(** [random.randint(a, b)] = [randrange(a, b + 1)]: [ValueError] on an
    empty range. *)
Definition randint (a b : Z) : M Z :=
  if 0 <? b + 1 - a then
    fun g => let (i, g') := randbelow (b + 1 - a) g in (Ok (a + i), g')
  else raise ValueError.

(** [random.choices(population, weights=weights, k=1)[0]], as the library
    has it from Python 3.9 on:
    [cum_weights = list(accumulate(weights))]; a length mismatch is a
    [ValueError]; [total = cum_weights[-1] + 0.0] is an [IndexError] on an
    empty list and an [OverflowError] when the sum does not convert to a
    float; [total <= 0.0] is a [ValueError] (a converted integer is always
    finite); the result is
    [population[bisect(cum_weights, random() * total, 0, n - 1)]]. *)
Definition choices1 {A} (population : list A) (weights : list Z) : M A :=
  let n := Z.of_nat (List.length population) in
  let cum_weights := accumulate weights in
  if negb (Z.of_nat (List.length cum_weights) =? n) then raise ValueError
  else
    match rev cum_weights with
    | [] => raise IndexError
    | last :: _ =>
        match to_float last with
        | Raise e => raise e
        | Ok total =>
            if total <=? 0 then raise ValueError
            else
              fun g =>
                let (k, g') := random g in
                let i := bisect cum_weights (mul_random k total) 0 (n - 1) in
                match nth_error population (Z.to_nat i) with
                | Some a => (Ok a, g')
                | None => (Raise IndexError, g')
                end
        end
    end.

(** [for x in xs: body] in [M]. *)
Fixpoint for_m {S X} (body : S -> X -> M S) (xs : list X) (s : S) : M S :=
  match xs with
  | [] => mret s
  | x :: xs' => mbind (body s x) (for_m body xs')
  end.

(** The same loop when the body can [break]: [inr] leaves the loop. *)
Fixpoint for_break {S X} (body : S -> X -> M (S + S)) (xs : list X) (s : S)
  : M S :=
  match xs with
  | [] => mret s
  | x :: xs' =>
      mbind (body s x) (fun r =>
        match r with
        | inl s' => for_break body xs' s'
        | inr s' => mret s'
        end)
  end.
End Random.

Notation "x <~ e ;; k" := (mbind e (fun x => k))
  (at level 61, e at next level, right associativity).

(* ================================================================== *)
(** ** Generation *)
(* ================================================================== *)

Section Generate.
Context {R : RandomSource}.

(** Lines 23-24 of [generate]: the optional reseeding. *)
Definition reseed (random_seed : option Z) : M unit :=
  match random_seed with
  | Some n => seed_with_int n
  | None => mret tt
  end.

(** Lines 25-28: the starting context. *)
Definition initial_context (self : MarkovChain) (seed : option string)
  : M string :=
  match seed with
  | Some s =>
      if len s =? order self then mret s
      else choice (dict_keys (transitions self))
  | None => choice (dict_keys (transitions self))
  end.

(** Lines 31-37: one iteration of the walk, on the pair of [result] and
    [context]. *)
Definition walk_step (self : MarkovChain) (st : list string * string)
  (_ : Z) : M (list string * string) :=
  let (res, context) := st in
  inner <~ lift (dict_getitem context (transitions self)) ;;
  next_char <~ choices1 (dict_keys inner) (dict_values inner) ;;
  let res := (res ++ [next_char])%list in
  mret (res, join (list_slice_from res (- order self))).

(** [MarkovChain.generate].  The loop runs over [range(length - order)], a
    finite list, so the call always ends: with a string or an exception. *)
Definition generate (self : MarkovChain) (length : Z) (seed : option string)
  (random_seed : option Z) : M string :=
  _ <~ reseed random_seed ;;
  context <~ initial_context self seed ;;
  st <~ for_m (walk_step self) (range (length - order self))
          (list_of_str context, context) ;;
  mret (join (fst st)).
End Generate.

(* ================================================================== *)
(** ** Serialisation *)
(* ================================================================== *)

#[local] Set Warnings "-register-all".

(** A Python [float]: a finite double, read as the rational it denotes, an
    infinity, or a NaN.  [json.load] reads the literals [Infinity],
    [-Infinity] and [NaN] into the last three. *)
Inductive pyfloat : Type :=
| Finite (q : Q)
| Infinity (negative : bool)
| NaN.

(** [x <= 0] on floats: every comparison with a NaN is [False]. *)
Definition float_le_zero (x : pyfloat) : bool :=
  match x with
  | Finite q => Qle_bool q 0
  | Infinity negative => negative
  | NaN => false
  end.

(** The tree of primitives that [to_dict] returns and [from_dict] reads:
    what [json.load] can produce. *)
Inductive value : Type :=
| VNone
| VBool (b : bool)
| VInt (n : Z)
| VFloat (x : pyfloat)
| VStr (s : string)
| VList (l : list value)
| VDict (d : list (string * value)).

(** A [MarkovChain] object as Python holds it: [from_dict] stores whatever it
    finds under the two keys, so the attributes are plain values. *)
Record instance : Type := mkInstance {
  inst_order : value;
  inst_transitions : value
}.

(** [d[k]] on an arbitrary value with a [str] subscript. *)
Definition subscript (d : value) (k : string) : result value :=
  match d with
  | VDict kvs => dict_getitem k kvs
  | _ => Raise TypeError
  end.

(** [v <= 0] on an arbitrary value: numbers compare ([bool] is an [int]),
    anything else is a [TypeError]. *)
Definition le_zero (v : value) : result bool :=
  match v with
  | VInt n => Ok (n <=? 0)
  | VBool b => Ok (negb b)
  | VFloat x => Ok (float_le_zero x)
  | _ => Raise TypeError
  end.

(** [MarkovChain.__init__] as [from_dict] calls it, on an unchecked
    argument. *)
Definition init_value (order : value) : result instance :=
  nonpositive <- le_zero order ;;
  if (nonpositive : bool) then Raise ValueError
  else Ok {| inst_order := order; inst_transitions := VDict [] |}.

(** [MarkovChain.to_dict].  The dictionary returned holds the table of the
    object itself, not a copy; the properties below are about its value. *)
Definition to_dict (self : instance) : value :=
  VDict [("order", inst_order self); ("transitions", inst_transitions self)].

(** [MarkovChain.from_dict] *)
Definition from_dict (d : value) : result instance :=
  o <- subscript d "order" ;;
  mc <- init_value o ;;
  t <- subscript d "transitions" ;;
  Ok {| inst_order := inst_order mc; inst_transitions := t |}.

(** The object behind a model whose attributes have their annotated types,
    and the way back. *)
Definition encode_counts (d : dict Z) : value :=
  VDict (map (fun kv => (fst kv, VInt (snd kv))) d).

Definition encode_table (t : table) : value :=
  VDict (map (fun kv => (fst kv, encode_counts (snd kv))) t).

Definition untyped (m : MarkovChain) : instance :=
  {| inst_order := VInt (order m);
     inst_transitions := encode_table (transitions m) |}.

Fixpoint decode_dict {V} (f : value -> option V) (d : list (string * value))
  : option (dict V) :=
  match d with
  | [] => Some []
  | (k, v) :: d' =>
      match f v, decode_dict f d' with
      | Some x, Some r => Some ((k, x) :: r)
      | _, _ => None
      end
  end.

Definition as_int (v : value) : option Z :=
  match v with
  | VInt n => Some n
  | _ => None
  end.

Definition as_counts (v : value) : option (dict Z) :=
  match v with
  | VDict d => decode_dict as_int d
  | _ => None
  end.

Definition as_table (v : value) : option table :=
  match v with
  | VDict d => decode_dict as_counts d
  | _ => None
  end.

Definition typed (o : instance) : option MarkovChain :=
  match inst_order o, as_table (inst_transitions o) with
  | VInt k, Some t => Some {| order := k; transitions := t |}
  | _, _ => None
  end.

(** The shape the specification asks of the data: [order] present and an
    integer, [transitions] present and a mapping of mappings of integers. *)
Definition well_shaped (d : value) : bool :=
  match d with
  | VDict kvs =>
      match dict_get "order" kvs, dict_get "transitions" kvs with
      | Some (VInt _), Some t =>
          match as_table t with
          | Some _ => true
          | None => false
          end
      | _, _ => false
      end
  | _ => false
  end.

(* ================================================================== *)
(** ** A concrete generator *)
(* ================================================================== *)

(** A small linear congruential generator, to run the definitions on concrete
    inputs.  Python's generator is the Mersenne Twister; it draws other
    numbers through the same interface. *)
Definition lcg_next (g : Z) : Z := (1103515245 * g + 12345) mod 2147483648.

Fixpoint str_hash (s : string) : Z :=
  match s with
  | EmptyString => 7
  | String c s' => (31 * str_hash s' + Z.of_nat (nat_of_ascii c)) mod 2147483648
  end.

Lemma lcg_randbelow_range (n g : Z) :
  0 < n -> 0 <= fst (lcg_next g mod n, lcg_next g) < n.
Proof. intros Hn. simpl. apply Z.mod_pos_bound. exact Hn. Qed.

Lemma lcg_random_range (g : Z) :
  0 <= fst (lcg_next g * 4194304, lcg_next g) < 2 ^ 53.
Proof.
  simpl fst.
  pose proof (Z.mod_pos_bound (1103515245 * g + 12345) 2147483648 eq_refl) as H.
  unfold lcg_next. change (2 ^ 53) with (2147483648 * 4194304). lia.
Qed.

Definition lcg : RandomSource :=
  {| rng := Z;
     seed_int := fun n => n mod 2147483648;
     seed_str := str_hash;
     randbelow := fun n g => (lcg_next g mod n, lcg_next g);
     random := fun g => (lcg_next g * 4194304, lcg_next g);
     randbelow_range := lcg_randbelow_range;
     random_range := lcg_random_range |}.

(** A generator that returns what it is set to: its state is the next draw,
    reduced to the range asked for.  It runs the definitions at a chosen
    draw. *)
Lemma dial_randbelow_range (n g : Z) : 0 < n -> 0 <= fst (g mod n, g) < n.
Proof. intros Hn. simpl. apply Z.mod_pos_bound. exact Hn. Qed.

Lemma dial_random_range (g : Z) : 0 <= fst (g mod 2 ^ 53, g) < 2 ^ 53.
Proof. simpl fst. apply Z.mod_pos_bound. reflexivity. Qed.

Definition dial : RandomSource :=
  {| rng := Z;
     seed_int := fun n => n;
     seed_str := str_hash;
     randbelow := fun n g => (g mod n, g);
     random := fun g => (g mod 2 ^ 53, g);
     randbelow_range := dial_randbelow_range;
     random_range := dial_random_range |}.

(* ================================================================== *)
(** ** Sibling copies of the module *)
(* ================================================================== *)

(** [run_1768561810934]: [__init__], [train], lines 21-26 of [generate] and
    the serialisation are those above; the walk looks the context up with
    [.get], stops on a dead end and samples with [randint] over the
    cumulative counts. *)
Module Run1768561810934.
(** Lines 34-40: the first candidate whose cumulative count reaches
    [rand_val]. *)
Fixpoint pick_cumulative (rand_val cumulative_count : Z) (items : dict Z)
  : option string :=
  match items with
  | [] => None
  | (next_char, count) :: rest =>
      let cumulative_count := cumulative_count + count in
      if rand_val <=? cumulative_count then Some next_char
      else pick_cumulative rand_val cumulative_count rest
  end.

Section Generate.
Context {R : RandomSource}.

(** Lines 29-40. *)
Definition walk_step (self : MarkovChain) (st : list string * string)
  (_ : Z) : M ((list string * string) + (list string * string)) :=
  let (res, context) := st in
  match dict_get context (transitions self) with
  | None | Some [] => mret (inr st)
  | Some next_char_options =>
      let total_count := sum (dict_values next_char_options) in
      rand_val <~ randint 1 total_count ;;
      match pick_cumulative rand_val 0 next_char_options with
      | Some next_char =>
          mret (inl ((res ++ [next_char])%list,
                     str_slice context (Some 1) None ++ next_char))
      | None => mret (inl st)
      end
  end.

Definition generate (self : MarkovChain) (length : Z)
  (seed : option string) (random_seed : option Z) : M string :=
  _ <~ reseed random_seed ;;
  context <~ initial_context self seed ;;
  st <~ for_break (walk_step self) (range (length - order self))
          (list_of_str context, context) ;;
  mret (join (fst st)).
End Generate.
End Run1768561810934.

(** [run_1768562193727]: a seed is used only when it is a key of the table;
    the walk stops on a dead end. *)
Module Run1768562193727.
Section Generate.
Context {R : RandomSource}.

(** Lines 24-27. *)
Definition initial_context (self : MarkovChain) (seed : option string)
  : M string :=
  match seed with
  | None => choice (dict_keys (transitions self))
  | Some s =>
      if (len s <? order self) || negb (dict_contains s (transitions self))
      then choice (dict_keys (transitions self))
      else mret (str_slice s None (Some (order self)))
  end.

(** Lines 31-36. *)
Definition walk_step (self : MarkovChain) (st : list string * string)
  (_ : Z) : M ((list string * string) + (list string * string)) :=
  let (res, context) := st in
  match dict_get context (transitions self) with
  | None | Some [] => mret (inr st)
  | Some next_chars =>
      next_char <~ choices1 (dict_keys next_chars) (dict_values next_chars) ;;
      let res := (res ++ [next_char])%list in
      mret (inl (res, join (list_slice_from res (- order self))))
  end.

Definition generate (self : MarkovChain) (length : Z)
  (seed : option string) (random_seed : option Z) : M string :=
  _ <~ reseed random_seed ;;
  context <~ initial_context self seed ;;
  st <~ for_break (walk_step self) (range (length - order self))
          (list_of_str context, context) ;;
  mret (join (fst st)).
End Generate.
End Run1768562193727.

(** [batch_1770640212304/python-ai-stdlib-oracle_run_01]: without a
    [random_seed] the generator is seeded from the seed string; the output
    holds the sampled characters only, at most [length] of them. *)
Module Batch1770640212304_01.
(** Lines 15-18: the update of [train], written with [.get]. *)
Definition train_step (order : Z) (text : string) (transitions : table)
  (i : Z) : result table :=
  let context := str_slice text (Some i) (Some (i + order)) in
  next_char <- str_index text (i + order) ;;
  if negb (dict_contains context transitions)
  then Ok (dict_set context [(next_char, 1)] transitions)
  else
    inner <- dict_getitem context transitions ;;
    let n := match dict_get next_char inner with Some n => n | None => 0 end in
    inner' <- dict_getitem context transitions ;;
    Ok (dict_set context (dict_set next_char (n + 1) inner') transitions).

Definition train (self : MarkovChain) (text : string) : result MarkovChain :=
  t <- for_each (train_step (order self) text)
         (range (len text - order self)) (transitions self) ;;
  Ok {| order := order self; transitions := t |}.

Section Generate.
Context {R : RandomSource}.

(** Lines 21-24. *)
Definition reseed (self : MarkovChain) (seed : option string)
  (random_seed : option Z) : M unit :=
  match random_seed, seed with
  | Some n, _ => seed_with_int n
  | None, Some s => seed_with_str (str_slice s None (Some (order self)))
  | None, None => mret tt
  end.

(** Line 27: an empty seed is as good as none. *)
Definition initial_context (self : MarkovChain) (seed : option string)
  : M string :=
  match seed with
  | Some (String _ _ as s) => mret (str_slice s None (Some (order self)))
  | _ => choice (dict_keys (transitions self))
  end.

(** Lines 30-38, on [(text, context)]. *)
Definition walk_step (self : MarkovChain) (st : list string * string)
  (_ : Z) : M ((list string * string) + (list string * string)) :=
  let (text, context) := st in
  match dict_get context (transitions self) with
  | None => mret (inr st)
  | Some inner =>
      next_char <~ choices1 (dict_keys inner) (dict_values inner) ;;
      mret (inl ((text ++ [next_char])%list,
                 str_slice context (Some 1) None ++ next_char))
  end.

Definition generate (self : MarkovChain) (length : Z)
  (seed : option string) (random_seed : option Z) : M string :=
  _ <~ reseed self seed random_seed ;;
  context <~ initial_context self seed ;;
  st <~ for_break (walk_step self) (range length) ([], context) ;;
  mret (join (fst st)).
End Generate.
End Batch1770640212304_01.

(** [batch_1770643297744/python-ai-stdlib-oracle_run_03], lines 14-21: the
    walk of a copy that samples the next character with [random.choice] over
    the candidate set, leaving the counts unread. *)
Module Batch1770643297744_03.
Section Walk.
Context {R : RandomSource}.

Definition walk_step (self : MarkovChain) (st : list string * string)
  (_ : Z) : M ((list string * string) + (list string * string)) :=
  let (res, context) := st in
  match dict_get context (transitions self) with
  | None | Some [] => mret (inr st)
  | Some inner =>
      next_char <~ choice (dict_keys inner) ;;
      let res := (res ++ [next_char])%list in
      mret (inl (res, join (list_slice_from res (- order self))))
  end.

Definition walk (self : MarkovChain) (length : Z) (context : string)
  : M string :=
  st <~ for_break (walk_step self) (range (length - len context))
          (list_of_str context, context) ;;
  mret (join (fst st)).
End Walk.
End Batch1770643297744_03.

(** [release_gate_after_schema_first_177179/python-ai-stdlib-oracle_run_03]:
    a seed of the wrong length is refused, before anything else happens. *)
Module SchemaFirst177179_03.
Section Generate.
Context {R : RandomSource}.

(** Lines 23-24. *)
Definition check_seed (self : MarkovChain) (seed : option string)
  : M unit :=
  match seed with
  | Some s => if negb (len s =? order self) then raise ValueError
              else mret tt
  | None => mret tt
  end.

(** Lines 28-31. *)
Definition initial_context (self : MarkovChain) (seed : option string)
  : M string :=
  match seed with
  | None => choice (dict_keys (transitions self))
  | Some s => mret s
  end.

Definition generate (self : MarkovChain) (length : Z)
  (seed : option string) (random_seed : option Z) : M string :=
  _ <~ check_seed self seed ;;
  _ <~ reseed random_seed ;;
  context <~ initial_context self seed ;;
  st <~ for_m (walk_step self) (range (length - order self))
          (list_of_str context, context) ;;
  mret (join (fst st)).
End Generate.
End SchemaFirst177179_03.

(** [batch_1771703728306/python-ai-stdlib-oracle_run_01]: a constructor that
    stores the order unchecked. *)
Module Batch1771703728306_01.
Definition init (order : Z) : result MarkovChain :=
  Ok {| order := order; transitions := [] |}.
End Batch1771703728306_01.

(* ================================================================== *)
(** ** Vocabulary of the properties *)
(* ================================================================== *)

(** The count the table records for [ch] after [c], if any. *)
Definition recorded (t : table) (c ch : string) : option Z :=
  match dict_get c t with
  | Some inner => dict_get ch inner
  | None => None
  end.

(** The same with [0] for an absent entry. *)
Definition count_of (t : table) (c ch : string) : Z :=
  match recorded t c ch with
  | Some n => n
  | None => 0
  end.

(** Position [i] of [text] shows context [c] followed by [ch]:
    [text[i:i+k] == c and text[i+k] == ch]. *)
Definition occurs_at (k : Z) (text c ch : string) (i : Z) : bool :=
  String.eqb (str_slice text (Some i) (Some (i + k))) c
  && match str_index text (i + k) with
     | Ok x => String.eqb x ch
     | Raise _ => false
     end.

(** The number of positions among [ps] that do. *)
Definition hits (k : Z) (text c ch : string) (ps : list Z) : Z :=
  Z.of_nat (List.length (filter (occurs_at k text c ch) ps)).

(** The number of positions [i], [0 <= i <= len(text) - k - 1], that do. *)
Definition occurrences (k : Z) (text c ch : string) : Z :=
  hits k text c ch (range (len text - k)).

(** The total over the texts of a training sequence. *)
Fixpoint occurrences_all (k : Z) (texts : list string) (c ch : string) : Z :=
  match texts with
  | [] => 0
  | text :: texts' => occurrences k text c ch + occurrences_all k texts' c ch
  end.

(** The net effect of one iteration of [train] on the table. *)
Definition bump (context next_char : string) (t : table) : table :=
  let inner := match dict_get context t with Some d => d | None => [] end in
  let n := match dict_get next_char inner with Some n => n | None => 0 end in
  dict_set context (dict_set next_char (n + 1) inner) t.

(** No string is listed twice. *)
Fixpoint distinct (l : list string) : bool :=
  match l with
  | [] => true
  | x :: l' => negb (existsb (String.eqb x) l') && distinct l'
  end.

(** The invariant of a trained table of order [k]: every context has length
    [k] and at least one continuation, every continuation is one character
    with a count of at least 1, and no key is listed twice. *)
Definition wf_counts (inner : dict Z) : bool :=
  match inner with [] => false | _ :: _ => true end
  && distinct (dict_keys inner)
  && forallb (fun kv => (len (fst kv) =? 1) && (1 <=? snd kv)) inner.

Definition wf_table (k : Z) (t : table) : bool :=
  distinct (dict_keys t)
  && forallb (fun kv => (len (fst kv) =? k) && wf_counts (snd kv)) t.

Definition wf_model (m : MarkovChain) : bool :=
  (1 <=? order m) && wf_table (order m) (transitions m).

(** A number for which [v <= 0] is [False], which is what [__init__] lets
    through: an [int] or a finite [float] above zero, [True], [Infinity],
    and NaN. *)
Definition not_le_zero (v : value) : bool :=
  match v with
  | VInt n => 0 <? n
  | VBool b => b
  | VFloat (Finite q) => negb (Qle_bool q 0)
  | VFloat (Infinity negative) => negb negative
  | VFloat NaN => true
  | _ => false
  end.

(** The counts of a context convert to a float: their sum is below
    [float_max_int]. *)
Definition float_safe_counts (inner : dict Z) : bool :=
  sum (dict_values inner) <? float_max_int.

Definition float_safe (m : MarkovChain) : bool :=
  forallb (fun kv => float_safe_counts (snd kv)) (transitions m).

(** The contexts [train] looks up in [text], in the order of the loop. *)
Definition contexts (k : Z) (text : string) : list string :=
  map (fun i => str_slice text (Some i) (Some (i + k))) (range (len text - k)).

(** The strings of [cs] that are not in [seen], each once, in the order of
    their first occurrence. *)
Fixpoint fresh (seen : list string) (cs : list string) : list string :=
  match cs with
  | [] => []
  | c :: cs' =>
      if existsb (String.eqb c) seen then fresh seen cs'
      else c :: fresh (c :: seen) cs'
  end.

(** A candidate of the table: a key of one of the inner dictionaries. *)
Definition candidate (m : MarkovChain) (ch : string) : Prop :=
  exists context inner,
    dict_get context (transitions m) = Some inner /\ In ch (dict_keys inner).

(** The weight that lies before position [j] in a list of weights. *)
Definition prefix_sum (ws : list Z) (j : nat) : Z := sum (firstn j ws).

(** A number: an [int], a [bool] or a [float]. *)
Definition is_number (v : value) : bool :=
  match v with
  | VInt _ | VBool _ | VFloat _ => true
  | _ => false
  end.

(** The sum of [f] over the values of a dictionary, and the number of
    transitions a table has counted: the sum of all its counts. *)
Definition weight {V} (f : V -> Z) (d : dict V) : Z :=
  sum (map (fun kv => f (snd kv)) d).

Definition total_count (t : table) : Z :=
  weight (fun inner => sum (dict_values inner)) t.

(** The [(k+1)]-gram at position [i] of a list of characters is a transition
    of the table: the [k] items from [i], joined, are a key, and the item
    after them is one of its candidates. *)
Definition window_ok (m : MarkovChain) (res : list string) (i : nat) : Prop :=
  let k := Z.to_nat (order m) in
  exists inner ch,
    dict_get (join (firstn k (skipn i res))) (transitions m) = Some inner
    /\ nth_error res (i + k) = Some ch
    /\ In ch (dict_keys inner).

(* ================================================================== *)
(** * Properties *)
(* ================================================================== *)

(** ** Strings, slices and ranges *)

Lemma length_substring (s : string) : forall n m : nat,
  (n + m <= String.length s)%nat -> String.length (substring n m s) = m.
Proof.
  induction s as [|a s IH]; intros n m H; simpl in H.
  - assert (n = 0%nat) by lia. assert (m = 0%nat) by lia. subst. reflexivity.
  - destruct n as [|n]; simpl.
    + destruct m as [|m]; simpl; [reflexivity|]. f_equal. apply (IH 0%nat). lia.
    + apply IH. lia.
Qed.

Lemma get_in_range (s : string) : forall n : nat,
  (n < String.length s)%nat -> exists c, String.get n s = Some c.
Proof.
  induction s as [|a s IH]; intros n H; simpl in H; [lia|].
  destruct n as [|n]; simpl.
  - now exists a.
  - apply IH. lia.
Qed.

Lemma len_nonneg (s : string) : 0 <= len s.
Proof. unfold len. lia. Qed.

Lemma len_str_slice (s : string) (i k : Z) :
  0 <= i -> 0 <= k -> i + k <= len s ->
  len (str_slice s (Some i) (Some (i + k))) = k.
Proof.
  intros Hi Hk Hlen. unfold str_slice, slice_bound.
  destruct (Z.ltb_spec i 0); [lia|].
  destruct (Z.ltb_spec (i + k) 0); [lia|].
  unfold len in *. rewrite length_substring; lia.
Qed.

Lemma str_index_in_range (s : string) (i : Z) :
  0 <= i < len s ->
  exists c, str_index s i = Ok (String c EmptyString).
Proof.
  intros Hi. unfold str_index.
  destruct (Z.ltb_spec i 0); [lia|].
  destruct (Z.leb_spec 0 i); [|lia].
  destruct (Z.ltb_spec i (len s)); [|lia]. simpl.
  destruct (get_in_range s (Z.to_nat i)) as [c Hc]; [unfold len in *; lia|].
  rewrite Hc. now exists c.
Qed.

Lemma in_range (n i : Z) : In i (range n) <-> 0 <= i < n.
Proof.
  unfold range. rewrite in_map_iff. split.
  - intros [j [<- Hj]]. apply in_seq in Hj. lia.
  - intros Hi. exists (Z.to_nat i). split; [lia|]. apply in_seq. lia.
Qed.

Lemma range_nonpositive (n : Z) : n <= 0 -> range n = [].
Proof.
  intros Hn. unfold range. replace (Z.to_nat n) with 0%nat by lia. reflexivity.
Qed.

Lemma length_range (n : Z) : List.length (range n) = Z.to_nat n.
Proof. unfold range. now rewrite length_map, length_seq. Qed.

(** ** Dictionaries *)

Section DictFacts.
Context {V : Type}.
Implicit Types (d : dict V) (k : string) (v : V).

Lemma dict_get_set_same d k v : dict_get k (dict_set k v d) = Some v.
Proof.
  induction d as [|[k' v'] d IH]; simpl.
  - now rewrite String.eqb_refl.
  - destruct (String.eqb k' k) eqn:E; simpl; rewrite E; [reflexivity|exact IH].
Qed.

Lemma dict_get_set_other d k k' v :
  k <> k' -> dict_get k' (dict_set k v d) = dict_get k' d.
Proof.
  intros Hne. induction d as [|[k0 v0] d IH]; simpl.
  - apply String.eqb_neq in Hne. now rewrite Hne.
  - destruct (String.eqb k0 k) eqn:E; simpl.
    + apply String.eqb_eq in E. subst k0.
      apply String.eqb_neq in Hne. now rewrite Hne.
    + now rewrite IH.
Qed.

Lemma dict_contains_set d k k' v :
  dict_contains k' (dict_set k v d) = String.eqb k k' || dict_contains k' d.
Proof.
  unfold dict_contains. destruct (String.eqb k k') eqn:E.
  - apply String.eqb_eq in E. subst. now rewrite dict_get_set_same.
  - apply String.eqb_neq in E. now rewrite dict_get_set_other.
Qed.

Lemma dict_get_in_keys d k :
  dict_contains k d = true <-> In k (dict_keys d).
Proof.
  unfold dict_contains. induction d as [|[k' v'] d IH]; simpl.
  - split; [discriminate|tauto].
  - destruct (String.eqb k' k) eqn:E.
    + apply String.eqb_eq in E. tauto.
    + apply String.eqb_neq in E. rewrite IH. tauto.
Qed.

Lemma dict_get_In d k v : dict_get k d = Some v -> In (k, v) d.
Proof.
  induction d as [|[k' v'] d IH]; simpl; [discriminate|].
  destruct (String.eqb k' k) eqn:E.
  - apply String.eqb_eq in E. intros [= ->]. subst. now left.
  - intros H. right. now apply IH.
Qed.

(** Setting a key changes the key list only by appending a new key. *)
Lemma dict_keys_set d k v :
  dict_keys (dict_set k v d)
  = if dict_contains k d then dict_keys d else (dict_keys d ++ [k])%list.
Proof.
  unfold dict_contains. induction d as [|[k' v'] d IH]; simpl; [reflexivity|].
  destruct (String.eqb k' k) eqn:E; simpl; [reflexivity|].
  rewrite IH. now destruct (dict_get k d).
Qed.

Lemma forallb_dict_set (P : string * V -> bool) d k v :
  forallb P d = true -> P (k, v) = true ->
  forallb P (dict_set k v d) = true.
Proof.
  intros Hd Hkv. induction d as [|[k' v'] d IH]; simpl in *.
  - now rewrite Hkv.
  - apply andb_true_iff in Hd as [H1 H2].
    destruct (String.eqb k' k) eqn:E; simpl.
    + apply String.eqb_eq in E. subst k'. now rewrite Hkv, H2.
    + now rewrite H1, IH.
Qed.
End DictFacts.

Lemma existsb_eqb_In (x : string) (l : list string) :
  existsb (String.eqb x) l = true <-> In x l.
Proof.
  rewrite existsb_exists. split.
  - intros [y [Hy E]]. apply String.eqb_eq in E. now subst.
  - intros H. exists x. now rewrite String.eqb_refl.
Qed.

Lemma distinct_NoDup (l : list string) : distinct l = true <-> NoDup l.
Proof.
  induction l as [|x l IH]; simpl.
  - split; [constructor|reflexivity].
  - rewrite andb_true_iff, negb_true_iff, IH. split.
    + intros [H1 H2]. constructor; [|exact H2].
      intros Hin. apply existsb_eqb_In in Hin. congruence.
    + intros H. inversion H as [|? ? Hn Hd]; subst. split; [|exact Hd].
      destruct (existsb (String.eqb x) l) eqn:E; [|reflexivity].
      apply existsb_eqb_In in E. contradiction.
Qed.

Lemma distinct_app_new (l : list string) (k : string) :
  distinct l = true -> ~ In k l -> distinct (l ++ [k]) = true.
Proof.
  rewrite !distinct_NoDup. intros Hd Hk.
  apply NoDup_app; [exact Hd|repeat constructor; intros []|].
  intros x Hx [<-|[]]. contradiction.
Qed.

Lemma distinct_dict_set {V} (d : dict V) (k : string) (v : V) :
  distinct (dict_keys d) = true -> distinct (dict_keys (dict_set k v d)) = true.
Proof.
  intros Hd. rewrite dict_keys_set.
  destruct (dict_contains k d) eqn:E; [exact Hd|].
  apply distinct_app_new; [exact Hd|].
  intros Hin. apply dict_get_in_keys in Hin. congruence.
Qed.

Lemma dict_set_set {V} (d : dict V) (k : string) (v1 v2 : V) :
  dict_set k v2 (dict_set k v1 d) = dict_set k v2 d.
Proof.
  induction d as [|[k' v'] d IH]; simpl.
  - now rewrite String.eqb_refl.
  - destruct (String.eqb k' k) eqn:E; simpl; rewrite E; [reflexivity|].
    now rewrite IH.
Qed.

(** ** Training *)

(** Whenever the following character exists, an iteration of [train] is a
    [bump]: the two membership tests and the [+= 1] never raise. *)
Lemma train_step_bump (k : Z) (text : string) (t : table) (i : Z) (nc : string) :
  str_index text (i + k) = Ok nc ->
  train_step k text t i
  = Ok (bump (str_slice text (Some i) (Some (i + k))) nc t).
Proof.
  intros Hnc. unfold train_step, bump, dict_contains, dict_getitem.
  rewrite Hnc. cbn [rbind].
  generalize (str_slice text (Some i) (Some (i + k))). intros c.
  destruct (dict_get c t) as [inner|] eqn:Hc; cbn [negb rbind].
  - rewrite Hc. cbn [rbind].
    destruct (dict_get nc inner) as [n|] eqn:Hn; cbn [negb rbind].
    + rewrite Hc. cbn [rbind]. rewrite Hn. reflexivity.
    + rewrite !dict_get_set_same. cbn [rbind].
      rewrite !dict_get_set_same. cbn [rbind].
      rewrite !dict_set_set. reflexivity.
  - rewrite !dict_get_set_same. cbn [rbind dict_get negb].
    rewrite !dict_get_set_same. cbn [rbind].
    rewrite !dict_get_set_same. cbn [rbind].
    rewrite !dict_set_set. reflexivity.
Qed.

Lemma recorded_bump (t : table) (c ch c' ch' : string) :
  recorded (bump c ch t) c' ch'
  = if String.eqb c c' && String.eqb ch ch'
    then Some (count_of t c ch + 1)
    else recorded t c' ch'.
Proof.
  unfold count_of, recorded, bump.
  destruct (String.eqb_spec c c') as [<-|Hc]; simpl.
  - rewrite dict_get_set_same.
    destruct (String.eqb_spec ch ch') as [<-|Hch].
    + rewrite dict_get_set_same. now destruct (dict_get c t).
    + rewrite dict_get_set_other by exact Hch.
      now destruct (dict_get c t).
  - now rewrite dict_get_set_other.
Qed.

Lemma contains_bump (t : table) (c ch c' : string) :
  dict_contains c' (bump c ch t) = String.eqb c c' || dict_contains c' t.
Proof. unfold bump. apply dict_contains_set. Qed.

Lemma wf_counts_bump (inner : dict Z) (ch : string) :
  len ch = 1 ->
  (inner = [] \/ wf_counts inner = true) ->
  wf_counts
    (dict_set ch (match dict_get ch inner with Some n => n | None => 0 end + 1)
       inner) = true.
Proof.
  intros Hch Hin. unfold wf_counts. rewrite !andb_true_iff. repeat split.
  - destruct inner as [|[k' v'] inner]; simpl; [reflexivity|].
    now destruct (String.eqb k' ch).
  - apply distinct_dict_set.
    destruct Hin as [->|H]; [reflexivity|].
    unfold wf_counts in H. rewrite !andb_true_iff in H. tauto.
  - destruct Hin as [->|H].
    + simpl. rewrite Hch. reflexivity.
    + unfold wf_counts in H. rewrite !andb_true_iff in H.
      destruct H as [[_ _] Hall].
      apply forallb_dict_set; [exact Hall|]. simpl. rewrite Hch. simpl.
      destruct (dict_get ch inner) as [n|] eqn:E; [|reflexivity].
      apply dict_get_In in E.
      rewrite forallb_forall in Hall. specialize (Hall _ E). simpl in Hall.
      apply andb_true_iff in Hall as [_ Hn]. lia.
Qed.

Lemma wf_table_bump (k : Z) (t : table) (c ch : string) :
  len c = k -> len ch = 1 ->
  wf_table k t = true -> wf_table k (bump c ch t) = true.
Proof.
  intros Hc Hch Hwf. unfold wf_table in *.
  apply andb_true_iff in Hwf as [Hd Hall].
  apply andb_true_iff. split.
  - unfold bump. now apply distinct_dict_set.
  - unfold bump. apply forallb_dict_set; [exact Hall|]. simpl.
    rewrite Hc, Z.eqb_refl. simpl.
    apply wf_counts_bump; [exact Hch|].
    destruct (dict_get c t) as [inner|] eqn:E; [right|now left].
    apply dict_get_In in E. rewrite forallb_forall in Hall.
    specialize (Hall _ E). simpl in Hall. now apply andb_true_iff in Hall.
Qed.

Lemma hits_cons (k : Z) (text c ch : string) (i : Z) (ps : list Z) :
  hits k text c ch (i :: ps)
  = (if occurs_at k text c ch i then 1 else 0) + hits k text c ch ps.
Proof.
  unfold hits. cbn [filter].
  destruct (occurs_at k text c ch i); cbn [List.length];
    rewrite ?Nat2Z.inj_succ; lia.
Qed.

Lemma hits_nonneg (k : Z) (text c ch : string) (ps : list Z) :
  0 <= hits k text c ch ps.
Proof. unfold hits. lia. Qed.

(** The loop of [train] over any list of positions that have a following
    character: it does not raise, keeps the invariant, adds to every count
    the number of positions showing that transition, and creates exactly the
    contexts it meets. *)
Lemma train_loop (k : Z) (text : string) (Hk : 1 <= k) :
  forall (ps : list Z) (t : table),
    (forall i, In i ps -> 0 <= i < len text - k) ->
    exists t',
      for_each (train_step k text) ps t = Ok t'
      /\ (wf_table k t = true -> wf_table k t' = true)
      /\ (forall c ch,
            count_of t' c ch = count_of t c ch + hits k text c ch ps)
      /\ (forall c ch,
            recorded t' c ch = None <->
            recorded t c ch = None /\ hits k text c ch ps = 0)
      /\ (forall c,
            dict_contains c t' = true <->
            dict_contains c t = true
            \/ exists i, In i ps /\ str_slice text (Some i) (Some (i + k)) = c).
Proof.
  induction ps as [|i ps IH]; intros t Hps.
  - exists t. simpl. repeat split; try tauto; try (unfold hits; simpl; lia).
    + intros [H | [i [[] _]]]. exact H.
  - assert (Hi : 0 <= i < len text - k) by (apply Hps; now left).
    destruct (str_index_in_range text (i + k)) as [a Ha]; [lia|].
    set (c0 := str_slice text (Some i) (Some (i + k))).
    destruct (IH (bump c0 (String a EmptyString) t)) as (t' & Hrun & Hwf & Hcnt & Hrec & Hkeys).
    { intros j Hj. apply Hps. now right. }
    exists t'. simpl. rewrite (train_step_bump _ _ _ _ _ Ha). simpl.
    split; [exact Hrun|]. split; [|split; [|split]].
    + intros H. apply Hwf. apply wf_table_bump; [|reflexivity|exact H].
      apply len_str_slice; lia.
    + intros c ch. rewrite Hcnt, hits_cons. unfold count_of at 1.
      rewrite recorded_bump. unfold occurs_at. fold c0. rewrite Ha.
      destruct (String.eqb_spec c0 c) as [Hc|Hc];
        destruct (String.eqb_spec (String a EmptyString) ch) as [Hch|Hch];
        cbn [andb]; try subst c; try subst ch; unfold count_of; lia.
    + intros c ch. rewrite Hrec, hits_cons, recorded_bump.
      unfold occurs_at. fold c0. rewrite Ha.
      pose proof (hits_nonneg k text c ch ps) as Hnn.
      destruct (String.eqb_spec c0 c) as [Hc|Hc];
        destruct (String.eqb_spec (String a EmptyString) ch) as [Hch|Hch];
        cbn [andb]; try subst c; try subst ch;
        split; intros [H1 H2]; try discriminate; try lia; (split; [exact H1|lia]).
    + intros c. rewrite Hkeys, contains_bump. split.
      * intros [H | [j [Hj Hc]]].
        -- apply orb_true_iff in H as [H|H]; [|now left].
           apply String.eqb_eq in H. right. exists i. split; [now left|exact H].
        -- right. exists j. split; [now right|exact Hc].
      * intros [H | [j [[<-|Hj] Hc]]].
        -- left. rewrite H. apply orb_true_r.
        -- left. fold c0 in Hc. subst c. now rewrite String.eqb_refl.
        -- right. now exists j.
Qed.

Lemma hits_positive (k : Z) (text c ch : string) (ps : list Z) (i : Z) :
  In i ps -> occurs_at k text c ch i = true -> 1 <= hits k text c ch ps.
Proof.
  intros Hin Hocc. unfold hits.
  assert (H : In i (filter (occurs_at k text c ch) ps))
    by (apply filter_In; split; assumption).
  destruct (filter (occurs_at k text c ch) ps); [destruct H|].
  cbn [List.length]. lia.
Qed.

Lemma occurrences_nonneg (k : Z) (text c ch : string) :
  0 <= occurrences k text c ch.
Proof. apply hits_nonneg. Qed.

Lemma occurrences_all_nonneg (k : Z) (texts : list string) (c ch : string) :
  0 <= occurrences_all k texts c ch.
Proof.
  induction texts as [|text texts IH]; simpl; [lia|].
  pose proof (occurrences_nonneg k text c ch). lia.
Qed.

Example train_aba :
  (m <- init 1 ;; train m "aba")
  = Ok {| order := 1; transitions := [("a", [("b", 1)]); ("b", [("a", 1)])] |}.
Proof. reflexivity. Qed.

Example train_abcd :
  (m <- init 2 ;; train m "abcd")
  = Ok {| order := 2; transitions := [("ab", [("c", 1)]); ("bc", [("d", 1)])] |}.
Proof. reflexivity. Qed.

(** One call of [train] on a model of order at least 1. *)
Lemma train_spec (m : MarkovChain) (text : string) :
  1 <= order m ->
  exists m',
    train m text = Ok m'
    /\ order m' = order m
    /\ (wf_table (order m) (transitions m) = true ->
        wf_table (order m) (transitions m') = true)
    /\ (forall c ch,
          count_of (transitions m') c ch
          = count_of (transitions m) c ch + occurrences (order m) text c ch)
    /\ (forall c ch,
          recorded (transitions m') c ch = None <->
          recorded (transitions m) c ch = None
          /\ occurrences (order m) text c ch = 0)
    /\ (forall c,
          dict_contains c (transitions m') = true ->
          dict_contains c (transitions m) = true
          \/ (len c = order m
              /\ exists ch, 1 <= occurrences (order m) text c ch)).
Proof.
  intros Hk.
  destruct (train_loop (order m) text Hk (range (len text - order m))
              (transitions m)) as (t' & Hrun & Hwf & Hcnt & Hrec & Hkeys).
  { intros i Hi. now apply in_range in Hi. }
  exists {| order := order m; transitions := t' |}.
  unfold train. rewrite Hrun. cbn [rbind order transitions].
  split; [reflexivity|]. split; [reflexivity|]. split; [exact Hwf|].
  split; [exact Hcnt|]. split; [exact Hrec|].
  intros c Hc. apply Hkeys in Hc as [Hc | [i [Hi Hc]]]; [now left|right].
  pose proof Hi as Hr. apply in_range in Hr.
  split; [subst c; apply len_str_slice; lia|].
  destruct (str_index_in_range text (i + order m)) as [a Ha]; [lia|].
  exists (String a EmptyString).
  apply (hits_positive _ _ _ _ _ i Hi).
  unfold occurs_at. rewrite Hc, Ha, !String.eqb_refl. reflexivity.
Qed.

(** A text with no position to read leaves the model as it is. *)
Lemma train_short (m : MarkovChain) (text : string) :
  len text < order m + 1 -> train m text = Ok m.
Proof.
  intros Hshort. unfold train. rewrite range_nonpositive by lia.
  simpl. now destruct m.
Qed.

(** A sequence of calls. *)
Lemma train_all_spec (texts : list string) : forall m : MarkovChain,
  1 <= order m ->
  exists m',
    train_all m texts = Ok m'
    /\ order m' = order m
    /\ (wf_table (order m) (transitions m) = true ->
        wf_table (order m) (transitions m') = true)
    /\ (forall c ch,
          count_of (transitions m') c ch
          = count_of (transitions m) c ch
            + occurrences_all (order m) texts c ch)
    /\ (forall c ch,
          recorded (transitions m') c ch = None <->
          recorded (transitions m) c ch = None
          /\ occurrences_all (order m) texts c ch = 0)
    /\ (forall c,
          dict_contains c (transitions m') = true ->
          dict_contains c (transitions m) = true
          \/ (len c = order m
              /\ exists ch, 1 <= occurrences_all (order m) texts c ch)).
Proof.
  induction texts as [|text texts IH]; intros m Hk.
  - exists m. simpl. repeat split; try tauto; try lia.
  - destruct (train_spec m text Hk) as (m1 & Hrun1 & Ho1 & Hwf1 & Hcnt1 & Hrec1 & Hkeys1).
    destruct (IH m1) as (m2 & Hrun2 & Ho2 & Hwf2 & Hcnt2 & Hrec2 & Hkeys2);
      [lia|].
    rewrite Ho1 in *.
    exists m2. unfold train_all in *. simpl. rewrite Hrun1. simpl.
    split; [exact Hrun2|]. split; [congruence|]. split; [tauto|].
    split; [|split].
    + intros c ch. rewrite Hcnt2, Hcnt1. lia.
    + intros c ch. rewrite Hrec2, Hrec1.
      pose proof (occurrences_nonneg (order m) text c ch).
      pose proof (occurrences_all_nonneg (order m) texts c ch).
      split; intros H'; repeat split; try tauto; lia.
    + intros c Hc. apply Hkeys2 in Hc as [Hc | [Hlen [ch Hch]]].
      * apply Hkeys1 in Hc as [Hc | [Hlen [ch Hch]]]; [now left|right].
        split; [exact Hlen|]. exists ch.
        pose proof (occurrences_all_nonneg (order m) texts c ch). lia.
      * right. split; [exact Hlen|]. exists ch.
        pose proof (occurrences_nonneg (order m) text c ch). lia.
Qed.

(** C1.  For an order [k >= 1], a freshly constructed model and any sequence
    of [train] calls: no call raises; the table records for a context [c] and
    a character [ch] exactly the number of positions [i],
    [0 <= i <= len(text) - k - 1], summed over the texts, where
    [text[i:i+k] = c] and [text[i+k] = ch], and records nothing when that
    number is zero; every key has length [k]; a context never seen with a
    following character is not a key; a text shorter than [k + 1] leaves
    any model of order [k] unchanged; and one more call on any model of
    order [k] adds that text's counts to the ones already there. *)
Theorem train_counts_transitions (k : Z) (texts : list string) (Hk : 1 <= k) :
  exists m,
    (m0 <- init k ;; train_all m0 texts) = Ok m
    /\ order m = k
    /\ (forall c ch,
          recorded (transitions m) c ch
          = if occurrences_all k texts c ch =? 0 then None
            else Some (occurrences_all k texts c ch))
    /\ (forall c, dict_contains c (transitions m) = true -> len c = k)
    /\ (forall c,
          (forall ch, occurrences_all k texts c ch = 0) ->
          dict_contains c (transitions m) = false)
    /\ (forall m1 text,
          order m1 = k -> len text < k + 1 -> train m1 text = Ok m1)
    /\ (forall m1 text,
          order m1 = k ->
          exists m2,
            train m1 text = Ok m2
            /\ forall c ch,
                 count_of (transitions m2) c ch
                 = count_of (transitions m1) c ch + occurrences k text c ch).
Proof.
  unfold init. destruct (Z.leb_spec k 0) as [|_]; [lia|]. cbn [rbind].
  destruct (train_all_spec texts {| order := k; transitions := [] |} Hk)
    as (m & Hrun & Ho & _ & Hcnt & Hrec & Hkeys).
  cbn [order transitions] in *.
  exists m. split; [exact Hrun|]. split; [exact Ho|].
  split; [|split; [|split; [|split]]].
  - intros c ch. specialize (Hcnt c ch). specialize (Hrec c ch).
    unfold count_of in Hcnt. cbn in Hcnt.
    destruct (Z.eqb_spec (occurrences_all k texts c ch) 0) as [E|E].
    + apply Hrec. split; [reflexivity|exact E].
    + destruct (recorded (transitions m) c ch) as [n|] eqn:Er.
      * f_equal. lia.
      * exfalso. apply E. now apply Hrec.
  - intros c Hc. apply Hkeys in Hc as [Hc | [Hlen _]]; [discriminate|exact Hlen].
  - intros c Hnone. destruct (dict_contains c (transitions m)) eqn:Hc; [|reflexivity].
    apply Hkeys in Hc as [Hc | [_ [ch Hch]]]; [discriminate|].
    rewrite Hnone in Hch. lia.
  - intros m1 text Ho1 Hshort. apply train_short. lia.
  - intros m1 text Ho1.
    destruct (train_spec m1 text) as (m2 & Hrun2 & _ & _ & Hcnt2 & _); [lia|].
    exists m2. split; [exact Hrun2|]. intros c ch. rewrite Hcnt2, Ho1. reflexivity.
Qed.

Lemma train_counts_transitions_witness :
  exists m,
    (m0 <- init 2 ;; train_all m0 ["abcab"; "abd"]) = Ok m
    /\ recorded (transitions m) "ab" "c" = Some 1
    /\ recorded (transitions m) "ab" "d" = Some 1
    /\ recorded (transitions m) "ca" "b" = Some 1
    /\ dict_contains "cd" (transitions m) = false.
Proof.
  destruct (train_counts_transitions 2 ["abcab"; "abd"] ltac:(lia))
    as (m & Hrun & _ & Hrec & _ & _ & _).
  exists m. split; [exact Hrun|].
  rewrite !Hrec. repeat split.
  vm_compute in Hrun. injection Hrun as <-. reflexivity.
Defined.

(** ** Construction *)

(** C9.  The constructor raises (its [ValueError] is the invalid-order
    condition) exactly when the order is [<= 0], and otherwise returns a model
    with that order and an empty table; order [0] is refused. *)
Theorem init_checks_order (k : Z) :
  (init k = Raise ValueError <-> k <= 0)
  /\ (init k = Ok {| order := k; transitions := [] |} <-> 1 <= k)
  /\ (forall e, init k = Raise e -> e = ValueError)
  /\ init 0 = Raise ValueError.
Proof.
  unfold init. destruct (Z.leb_spec k 0) as [H|H].
  - repeat split; try reflexivity; try discriminate; try lia.
    intros e [= <-]. reflexivity.
  - repeat split; try reflexivity; try discriminate; try lia.
Qed.

(** The copy [batch_1771703728306] has no such check: it builds a model of
    order [0]. *)
Remark unchecked_init_accepts_zero :
  Batch1771703728306_01.init 0 = Ok {| order := 0; transitions := [] |}.
Proof. reflexivity. Qed.

(** ** Serialisation *)

Lemma decode_encode_counts (d : dict Z) :
  as_counts (encode_counts d) = Some d.
Proof.
  unfold as_counts, encode_counts.
  induction d as [|[ch n] d IH]; simpl in *; [reflexivity|]. now rewrite IH.
Qed.

Lemma decode_encode_table (t : table) : as_table (encode_table t) = Some t.
Proof.
  unfold as_table, encode_table.
  induction t as [|[c inner] t IH]; [reflexivity|].
  cbn [map decode_dict fst snd]. rewrite decode_encode_counts.
  cbn [map decode_dict] in IH. now rewrite IH.
Qed.

Lemma typed_untyped (m : MarkovChain) : typed (untyped m) = Some m.
Proof.
  unfold typed, untyped. cbn [inst_order inst_transitions].
  rewrite decode_encode_table. now destruct m.
Qed.

(** C3.  For a model [m] (its order is at least 1, as the constructor
    guarantees), [from_dict(to_dict(m))] does not raise and yields an object
    with the order and the transition table of [m]; read back as a model it
    is [m], so [generate] on it returns what it returns on [m], for the same
    arguments and the same generator state. *)
Theorem from_dict_to_dict_roundtrip {R : RandomSource} (m : MarkovChain)
  (Hk : 1 <= order m) :
  exists o,
    from_dict (to_dict (untyped m)) = Ok o
    /\ inst_order o = VInt (order m)
    /\ inst_transitions o = encode_table (transitions m)
    /\ exists m',
         typed o = Some m'
         /\ order m' = order m
         /\ transitions m' = transitions m
         /\ forall length seed random_seed g,
              generate m' length seed random_seed g
              = generate m length seed random_seed g.
Proof.
  exists (untyped m). unfold from_dict, to_dict, subscript, dict_getitem.
  cbn [dict_get String.eqb Ascii.eqb Bool.eqb inst_order inst_transitions
       untyped rbind].
  unfold init_value, le_zero. cbn [rbind].
  destruct (Z.leb_spec (order m) 0) as [|_]; [lia|].
  cbn [rbind inst_order inst_transitions dict_get String.eqb Ascii.eqb Bool.eqb].
  split; [reflexivity|]. split; [reflexivity|]. split; [reflexivity|].
  exists m. split; [apply typed_untyped|]. repeat split.
Qed.

Lemma from_dict_to_dict_roundtrip_witness :
  exists o,
    from_dict
      (to_dict
         (untyped
            {| order := 2;
               transitions := [("ab", [("c", 1)]); ("bc", [("d", 1)])] |}))
    = Ok o
    /\ typed o
       = Some {| order := 2;
                 transitions := [("ab", [("c", 1)]); ("bc", [("d", 1)])] |}.
Proof.
  destruct (from_dict_to_dict_roundtrip (R := lcg)
              {| order := 2;
                 transitions := [("ab", [("c", 1)]); ("bc", [("d", 1)])] |}
              ltac:(simpl; lia))
    as (o & Hrun & _ & _ & _).
  exists o. split; [exact Hrun|].
  vm_compute in Hrun. injection Hrun as <-. reflexivity.
Defined.

Lemma le_zero_not_le_zero (v : value) :
  le_zero v = Ok false <-> not_le_zero v = true.
Proof.
  destruct v; simpl; try (split; discriminate).
  - destruct b; simpl; split; congruence.
  - destruct (Z.leb_spec n 0), (Z.ltb_spec 0 n); split; try congruence; lia.
  - destruct x as [q|[|]|]; simpl; try (split; congruence).
    destruct (Qle_bool q 0); simpl; split; congruence.
Qed.

(** C10, as amended.  [from_dict] returns an object exactly when the data is
    a mapping that has an [order] entry holding a number for which
    [order <= 0] is false (an int or float above zero, [True], [Infinity],
    or a float NaN) and a [transitions] entry; the object then holds the two
    entries as they are, whatever the shape of [transitions].  In every
    other case it raises and returns nothing: [TypeError] for data that is
    not a mapping or an order that is not a number, [KeyError] for a missing
    entry, [ValueError] for a number with [order <= 0]. *)
Theorem from_dict_unvalidated (d : value) :
  (forall o,
     from_dict d = Ok o <->
     exists kvs ord t,
       d = VDict kvs
       /\ dict_get "order" kvs = Some ord
       /\ not_le_zero ord = true
       /\ dict_get "transitions" kvs = Some t
       /\ o = {| inst_order := ord; inst_transitions := t |})
  /\ ((forall kvs, d <> VDict kvs) -> from_dict d = Raise TypeError)
  /\ (forall kvs, d = VDict kvs ->
        match dict_get "order" kvs with
        | None => from_dict d = Raise KeyError
        | Some ord =>
            (is_number ord = false -> from_dict d = Raise TypeError)
            /\ (is_number ord = true -> not_le_zero ord = false ->
                from_dict d = Raise ValueError)
            /\ (not_le_zero ord = true ->
                dict_get "transitions" kvs = None ->
                from_dict d = Raise KeyError)
        end).
Proof.
  split; [|split].
  - intros o. unfold from_dict, subscript, dict_getitem, init_value. split.
    + destruct d as [| | | | | |kvs]; try discriminate.
      destruct (dict_get "order" kvs) as [ord|] eqn:Eo; [|discriminate].
      cbn [rbind].
      destruct (le_zero ord) as [[|]|] eqn:El; cbn [rbind]; try discriminate.
      cbn [inst_order].
      destruct (dict_get "transitions" kvs) as [t|] eqn:Et; [|discriminate].
      cbn [rbind]. intros [= <-].
      exists kvs, ord, t. apply le_zero_not_le_zero in El. tauto.
    + intros (kvs & ord & t & -> & Eo & Hpos & Et & ->).
      apply le_zero_not_le_zero in Hpos.
      rewrite Eo. cbn [rbind]. rewrite Hpos. cbn [rbind]. now rewrite Et.
  - intros Hd. destruct d as [| | | | | |kvs]; try reflexivity.
    now destruct (Hd kvs).
  - intros kvs ->. unfold from_dict, subscript, dict_getitem, init_value.
    destruct (dict_get "order" kvs) as [ord|]; [|reflexivity].
    cbn [rbind]. split; [|split].
    + destruct ord; simpl; intros H; try discriminate; reflexivity.
    + intros Hnum Hpos.
      destruct ord as [|b|n|x|s|l|kv]; cbn in Hnum, Hpos |- *;
        try discriminate.
      * subst b. reflexivity.
      * destruct (Z.leb_spec n 0), (Z.ltb_spec 0 n); try reflexivity;
          try discriminate; lia.
      * destruct x as [q|[|]|]; cbn in Hpos |- *; try discriminate;
          try reflexivity.
        now destruct (Qle_bool q 0).
    + intros Hpos Ht. apply le_zero_not_le_zero in Hpos.
      rewrite Hpos. cbn [rbind]. now rewrite Ht.
Qed.

(** C10 as stated fails both ways: data whose [transitions] is the integer 5
    is not the required shape and is loaded all the same; data of the
    required shape with order [0] is refused. *)
Lemma from_dict_ignores_shape :
  well_shaped (VDict [("order", VInt 1); ("transitions", VInt 5)]) = false
  /\ from_dict (VDict [("order", VInt 1); ("transitions", VInt 5)])
     = Ok {| inst_order := VInt 1; inst_transitions := VInt 5 |}
  /\ well_shaped (VDict [("order", VInt 0); ("transitions", VDict [])]) = true
  /\ from_dict (VDict [("order", VInt 0); ("transitions", VDict [])])
     = Raise ValueError.
Proof. repeat split. Qed.

(** [from_dict] accepts an order that is no number above zero: for a NaN,
    which [json.load] reads from the literal [NaN], [order <= 0] is false
    and nothing is raised. *)
Remark from_dict_accepts_nan :
  from_dict (VDict [("order", VFloat NaN); ("transitions", VDict [])])
  = Ok {| inst_order := VFloat NaN; inst_transitions := VDict [] |}.
Proof. reflexivity. Qed.

(** ** Generation *)

Section GenerateFacts.
Context {R : RandomSource}.

(** [generate], unfolded once: reseed, pick the context, walk, join. *)
Lemma generate_unfold (m : MarkovChain) (length : Z) (seed : option string)
  (random_seed : option Z) (g : rng) :
  generate m length seed random_seed g
  = let g0 := snd (reseed random_seed g) in
    match initial_context m seed g0 with
    | (Ok context, g1) =>
        match for_m (walk_step m) (range (length - order m))
                (list_of_str context, context) g1 with
        | (Ok st, g2) => (Ok (join (fst st)), g2)
        | (Raise e, g2) => (Raise e, g2)
        end
    | (Raise e, g1) => (Raise e, g1)
    end.
Proof.
  unfold generate, mbind, reseed.
  destruct random_seed as [n|]; cbn [seed_with_int mret snd];
    destruct (initial_context m seed _) as [[context|e] g1]; try reflexivity;
    destruct (for_m _ _ _ g1) as [[st|e] g2]; reflexivity.
Qed.

Lemma reseed_some (n : Z) (g : rng) : reseed (Some n) g = (Ok tt, seed_int n).
Proof. reflexivity. Qed.

(** C2.  With [random_seed = S] the outcome of [generate] -- the string
    returned or the exception raised -- and the generator state it leaves
    are the same whatever the generator state before the call, in the
    embedded copy and in the copy [batch_1770640212304] that also seeds from
    the seed string: two calls with the same arguments on the same model give
    the same output. *)
Theorem generate_deterministic (m : MarkovChain) (length : Z)
  (seed : option string) (S : Z) (g1 g2 : rng) :
  generate m length seed (Some S) g1 = generate m length seed (Some S) g2
  /\ Batch1770640212304_01.generate m length seed (Some S) g1
     = Batch1770640212304_01.generate m length seed (Some S) g2.
Proof.
  split.
  - rewrite !generate_unfold. rewrite !reseed_some. reflexivity.
  - unfold Batch1770640212304_01.generate, Batch1770640212304_01.reseed, mbind.
    reflexivity.
Qed.
End GenerateFacts.

(** Without [random_seed] the output follows the state the generator is in:
    the same call gives two different strings from two states. *)
Remark generate_unseeded_depends_on_state :
  fst (generate (R := lcg)
         {| order := 1; transitions := [("a", [("b", 1)]); ("b", [("a", 1)])] |}
         3 None None 0)
  <> fst (generate (R := lcg)
         {| order := 1; transitions := [("a", [("b", 1)]); ("b", [("a", 1)])] |}
         3 None None 1).
Proof. vm_compute. discriminate. Qed.

(** *** Joining and cutting strings *)

Lemma append_empty_r (s : string) : s ++ "" = s.
Proof. induction s as [|a s IH]; simpl; [reflexivity|now rewrite IH]. Qed.

Lemma join_cons (x : string) (l : list string) : join (x :: l) = x ++ join l.
Proof.
  unfold join. destruct l as [|y l]; simpl; [now rewrite append_empty_r|].
  reflexivity.
Qed.

Lemma join_app (l1 l2 : list string) : join (l1 ++ l2) = join l1 ++ join l2.
Proof.
  induction l1 as [|x l1 IH]; [reflexivity|].
  rewrite <- app_comm_cons, !join_cons, IH.
  induction x as [|a x IHx]; simpl; [reflexivity|now rewrite IHx].
Qed.

Lemma join_list_of_str (s : string) : join (list_of_str s) = s.
Proof.
  induction s as [|a s IH]; [reflexivity|].
  cbn [list_of_str]. rewrite join_cons, IH. reflexivity.
Qed.

Lemma length_append (s1 s2 : string) :
  String.length (s1 ++ s2) = (String.length s1 + String.length s2)%nat.
Proof. induction s1 as [|a s1 IH]; simpl; [reflexivity|now rewrite IH]. Qed.

Lemma len_join_units (l : list string) :
  Forall (fun x => len x = 1) l -> len (join l) = Z.of_nat (List.length l).
Proof.
  induction 1 as [|x l Hx _ IH]; [reflexivity|].
  rewrite join_cons. unfold len in *. rewrite length_append.
  cbn [List.length]. lia.
Qed.

Lemma list_of_str_units (s : string) :
  Forall (fun x => len x = 1) (list_of_str s)
  /\ List.length (list_of_str s) = String.length s.
Proof.
  induction s as [|a s [IH1 IH2]]; simpl; split; auto.
Qed.

Lemma substring_prefix (s t : string) :
  substring 0 (String.length s) (s ++ t) = s.
Proof. induction s as [|a s IH]; simpl; [now destruct t|now rewrite IH]. Qed.

Lemma range_positive (n : Z) : 0 < n -> exists r, range n = 0 :: r.
Proof.
  intros Hn. unfold range.
  destruct (Z.to_nat n) as [|k] eqn:E; [lia|]. simpl. eauto.
Qed.

Section GenerateProps.
Context {R : RandomSource}.

(** *** What the draws return *)

Lemma choice_inv {A} (l : list A) (g g' : rng) (a : A) :
  choice l g = (Ok a, g') ->
  nth_error l (Z.to_nat (fst (randbelow (Z.of_nat (List.length l)) g))) = Some a
  /\ g' = snd (randbelow (Z.of_nat (List.length l)) g)
  /\ In a l.
Proof.
  unfold choice. destruct l as [|x l]; [discriminate|].
  destruct (randbelow _ g) as [i gi]. cbn [fst snd].
  destruct (nth_error (x :: l) (Z.to_nat i)) as [y|] eqn:E; [|discriminate].
  intros [= <- <-]. repeat split. eapply nth_error_In; eauto.
Qed.

(** On a non-empty list [random.choice] does not raise. *)
Lemma choice_nonempty {A} (l : list A) (g : rng) :
  l <> [] ->
  exists a,
    choice l g = (Ok a, snd (randbelow (Z.of_nat (List.length l)) g))
    /\ nth_error l (Z.to_nat (fst (randbelow (Z.of_nat (List.length l)) g)))
       = Some a.
Proof.
  intros Hne. unfold choice. destruct l as [|x l]; [congruence|].
  pose proof (randbelow_range (Z.of_nat (List.length (x :: l))) g) as Hr.
  destruct (randbelow _ g) as [i gi]. cbn [fst snd] in *.
  destruct (nth_error (x :: l) (Z.to_nat i)) as [y|] eqn:E.
  - exists y. auto.
  - apply nth_error_None in E. cbn [List.length] in *. lia.
Qed.

Lemma choices1_inv {A} (population : list A) (weights : list Z) (g g' : rng)
  (a : A) :
  choices1 population weights g = (Ok a, g') -> In a population.
Proof.
  unfold choices1.
  destruct (negb _); [discriminate|].
  destruct (rev (accumulate weights)) as [|last ?]; [discriminate|].
  destruct (to_float last) as [total|e]; [|discriminate].
  destruct (total <=? 0); [discriminate|].
  destruct (random g) as [u gu].
  destruct (nth_error population _) as [y|] eqn:E; [|discriminate].
  intros [= <- <-]. eapply nth_error_In; eauto.
Qed.

(** *** The walk *)

Lemma walk_step_inv (m : MarkovChain) (res : list string) (context : string)
  (i : Z) (g g1 : rng) (res1 : list string) (context1 : string) :
  walk_step m (res, context) i g = (Ok (res1, context1), g1) ->
  exists inner ch,
    dict_get context (transitions m) = Some inner
    /\ In ch (dict_keys inner)
    /\ res1 = (res ++ [ch])%list
    /\ context1 = join (list_slice_from res1 (- order m)).
Proof.
  unfold walk_step, mbind, lift, dict_getitem.
  destruct (dict_get context (transitions m)) as [inner|]; [|discriminate].
  destruct (choices1 _ _ g) as [[ch|e] g2] eqn:E; [|discriminate].
  cbn [mret]. intros [= <- <- <-].
  exists inner, ch. repeat split. eapply choices1_inv; eauto.
Qed.

(** A context that is not a key makes the step raise [KeyError]. *)
Lemma walk_step_dead_end (m : MarkovChain) (res : list string)
  (context : string) (i : Z) (g : rng) :
  dict_get context (transitions m) = None ->
  walk_step m (res, context) i g = (Raise KeyError, g).
Proof.
  intros H. unfold walk_step, mbind, lift, dict_getitem. now rewrite H.
Qed.

(** A walk that returns has appended one candidate per iteration. *)
Lemma walk_extends (m : MarkovChain) (xs : list Z) :
  forall res context g res' context' g',
    for_m (walk_step m) xs (res, context) g = (Ok (res', context'), g') ->
    exists extra,
      res' = (res ++ extra)%list
      /\ List.length extra = List.length xs
      /\ Forall (candidate m) extra.
Proof.
  induction xs as [|x xs IH]; intros res context g res' context' g' Hrun.
  - cbn in Hrun. injection Hrun as <- <- <-.
    exists []. rewrite app_nil_r. repeat split. constructor.
  - cbn [for_m] in Hrun. unfold mbind in Hrun.
    destruct (walk_step m (res, context) x g) as [[[res1 context1]|e] g1] eqn:E;
      [|discriminate].
    apply walk_step_inv in E as (inner & ch & Hget & Hin & -> & _).
    apply IH in Hrun as (extra & -> & Hlen & Hall).
    exists (ch :: extra). rewrite <- app_assoc. cbn [app List.length].
    repeat split; [now rewrite Hlen|].
    constructor; [|exact Hall]. now exists context, inner.
Qed.

Lemma candidate_unit (m : MarkovChain) (ch : string) :
  wf_model m = true -> candidate m ch -> len ch = 1.
Proof.
  unfold wf_model, wf_table, wf_counts.
  rewrite !andb_true_iff. intros [_ [_ Hall]] (context & inner & Hget & Hin).
  apply dict_get_In in Hget. rewrite forallb_forall in Hall.
  specialize (Hall _ Hget). cbn [fst snd] in Hall.
  rewrite !andb_true_iff in Hall. destruct Hall as [_ [_ Hinner]].
  unfold dict_keys in Hin. apply in_map_iff in Hin as [[ch' n] [<- Hin]].
  rewrite forallb_forall in Hinner. specialize (Hinner _ Hin).
  cbn [fst snd] in *. apply andb_true_iff in Hinner as [H _]. lia.
Qed.

Lemma key_length (m : MarkovChain) (c : string) :
  wf_model m = true -> In c (dict_keys (transitions m)) -> len c = order m.
Proof.
  unfold wf_model, wf_table. rewrite !andb_true_iff. intros [_ [_ Hall]] Hin.
  unfold dict_keys in Hin. apply in_map_iff in Hin as [[c' inner] [<- Hin]].
  rewrite forallb_forall in Hall. specialize (Hall _ Hin).
  cbn [fst snd] in *. apply andb_true_iff in Hall as [H _]. lia.
Qed.

(** The starting context of a well-formed model has [order] characters. *)
Lemma initial_context_length (m : MarkovChain) (seed : option string)
  (g g' : rng) (c : string) :
  wf_model m = true ->
  initial_context m seed g = (Ok c, g') -> len c = order m.
Proof.
  intros Hwf. unfold initial_context.
  destruct seed as [s|].
  - destruct (Z.eqb_spec (len s) (order m)) as [E|E].
    + intros [= <- <-]. exact E.
    + intros H. apply choice_inv in H as (_ & _ & Hin). now apply key_length.
  - intros H. apply choice_inv in H as (_ & _ & Hin). now apply key_length.
Qed.
End GenerateProps.

Section GenerateClaims.
Context {R : RandomSource}.

Lemma initial_context_seeded (m : MarkovChain) (s : string) (g : rng) :
  len s = order m -> initial_context m (Some s) g = (Ok s, g).
Proof.
  intros H. unfold initial_context. rewrite H, Z.eqb_refl. reflexivity.
Qed.

Lemma initial_context_unseeded (m : MarkovChain) (seed : option string)
  (g : rng) :
  (forall s, seed = Some s -> len s <> order m) ->
  initial_context m seed g = choice (dict_keys (transitions m)) g.
Proof.
  intros H. unfold initial_context. destruct seed as [s|]; [|reflexivity].
  destruct (Z.eqb_spec (len s) (order m)) as [E|E]; [|reflexivity].
  now destruct (H s eq_refl).
Qed.

(** With no iteration to run, [generate] is the choice of the context. *)
Lemma generate_no_walk (m : MarkovChain) (length : Z) (seed : option string)
  (random_seed : option Z) (g : rng) :
  length <= order m ->
  generate m length seed random_seed g
  = initial_context m seed (snd (reseed random_seed g)).
Proof.
  intros Hlen. rewrite generate_unfold. cbv zeta.
  rewrite range_nonpositive by lia. cbn [for_m mret fst].
  destruct (initial_context m seed _) as [[c|e] g1]; [|reflexivity].
  now rewrite join_list_of_str.
Qed.


(** X12.  In the copy [run_1768562193727] the seed must be a key, so on an
    empty table every call, whatever its arguments, ends in the [IndexError]
    of [random.choice] on an empty list. *)
Lemma generate_untrained_membership_copy (m : MarkovChain) (length : Z)
  (seed : option string) (random_seed : option Z) (g : rng) :
  transitions m = [] ->
  fst (Run1768562193727.generate m length seed random_seed g)
  = Raise IndexError.
Proof.
  intros Hempty.
  unfold Run1768562193727.generate, Run1768562193727.initial_context, mbind.
  destruct (reseed random_seed g) as [[[]|e] g0] eqn:E.
  - rewrite Hempty. destruct seed as [s|]; [|reflexivity].
    unfold dict_contains. cbn [dict_get negb dict_keys map].
    now rewrite orb_true_r.
  - destruct random_seed; discriminate.
Qed.

(** On a well-formed model a string returned by [generate] has
    [max(length, order)] characters. *)
Lemma generate_returns_max (m : MarkovChain) (length : Z)
  (seed : option string) (random_seed : option Z) (g : rng) (out : string) :
  wf_model m = true ->
  fst (generate m length seed random_seed g) = Ok out ->
  len out = Z.max length (order m).
Proof.
  intros Hwf Hout. rewrite generate_unfold in Hout. cbv zeta in Hout.
  destruct (initial_context m seed _) as [[c|e] g1] eqn:Ec; [|discriminate].
  apply initial_context_length in Ec; [|exact Hwf].
  destruct (for_m _ _ _ g1) as [[[res ctx]|e] g2] eqn:Ew; [|discriminate].
  cbn [fst] in Hout. injection Hout as <-.
  apply walk_extends in Ew as (extra & -> & Hlen & Hall).
  rewrite join_app, join_list_of_str.
  assert (Hextra : len (join extra) = Z.of_nat (List.length extra)).
  { apply len_join_units. eapply Forall_impl; [|exact Hall].
    intros ch. now apply candidate_unit. }
  rewrite length_range in Hlen.
  unfold len in *. rewrite length_append. lia.
Qed.
End GenerateClaims.



(** C6 as stated fails: a model trained on ["abc"] with order 2 has a
    non-empty table, and [generate(1, "ab")] returns two characters; so does
    the copy [run_1768561810934]. *)
Lemma generate_exceeds_length :
  (m <- init 2 ;; train m "abc")
  = Ok {| order := 2; transitions := [("ab", [("c", 1)])] |}
  /\ fst (generate (R := lcg)
            {| order := 2; transitions := [("ab", [("c", 1)])] |}
            1 (Some "ab") (Some 0) 0) = Ok "ab"
  /\ fst (Run1768561810934.generate (R := lcg)
            {| order := 2; transitions := [("ab", [("c", 1)])] |}
            1 (Some "ab") (Some 0) 0) = Ok "ab"
  /\ 1 < len "ab".
Proof. repeat split. Qed.

Section SeedClaims.
Context {R : RandomSource}.

Lemma str_slice_prefix (s t : string) :
  str_slice (s ++ t) None (Some (len s)) = s.
Proof.
  unfold str_slice, slice_bound.
  pose proof (len_nonneg s) as Hs.
  destruct (Z.ltb_spec (len s) 0) as [|_]; [lia|].
  assert (Hmin : Z.min (len s) (len (s ++ t)) = len s).
  { unfold len. rewrite length_append. lia. }
  rewrite Hmin. unfold len.
  replace (Z.to_nat (Z.of_nat (String.length s) - 0)) with (String.length s)
    by lia.
  apply substring_prefix.
Qed.

(** The seed rule of the embedded copy, lines 25-28.  A seed of length
    [order] is the starting context as it is, draws nothing from the
    generator, and is the first [order] characters of any string [generate]
    returns.  A seed of another length is treated like a missing one: the
    starting context is [keys[randbelow(len(keys))]], one uniform draw over
    the keys of the table, which does not fail when the table is not
    empty. *)
Lemma seed_of_order_length_is_context (m : MarkovChain)
  (seed : option string) (g : rng) :
  (forall s, seed = Some s -> len s = order m ->
     initial_context m seed g = (Ok s, g)
     /\ forall length random_seed g0 out,
          fst (generate m length seed random_seed g0) = Ok out ->
          str_slice out None (Some (order m)) = s)
  /\ ((forall s, seed = Some s -> len s <> order m) ->
      transitions m <> [] ->
      let keys := dict_keys (transitions m) in
      let draw := randbelow (Z.of_nat (List.length keys)) g in
      exists key,
        initial_context m seed g = (Ok key, snd draw)
        /\ nth_error keys (Z.to_nat (fst draw)) = Some key
        /\ 0 <= fst draw < Z.of_nat (List.length keys)).
Proof.
  split.
  - intros s -> Hs. split; [now apply initial_context_seeded|].
    intros length random_seed g0 out Hout.
    rewrite generate_unfold in Hout. cbv zeta in Hout.
    rewrite initial_context_seeded in Hout by exact Hs.
    destruct (for_m _ _ _ _) as [[[res ctx]|e] g2] eqn:Ew; [|discriminate].
    cbn [fst] in Hout. injection Hout as <-.
    apply walk_extends in Ew as (extra & -> & _ & _).
    rewrite join_app, join_list_of_str, <- Hs. apply str_slice_prefix.
  - intros Hseed Hne keys draw.
    rewrite (initial_context_unseeded _ _ _ Hseed).
    assert (Hkeys : keys <> []).
    { subst keys. destruct (transitions m); [congruence|discriminate]. }
    destruct (choice_nonempty keys g Hkeys) as (key & Hrun & Hnth).
    exists key. split; [exact Hrun|]. split; [exact Hnth|].
    apply randbelow_range. destruct keys; [congruence|]. cbn [List.length]. lia.
Qed.

(** C7, where the embedded copy departs from it.  A seed of [order]
    characters that is no key of the table is not treated as absent: it is
    the starting context, and as the walk reads the table at the context
    without a presence test, [generate] returns the seed itself when
    [length <= order] and raises [KeyError] when [length > order].  The copy
    [run_1768562193727] tests [seed not in self.transitions] and draws the
    starting context from the keys, as the claim has it. *)
Theorem seed_outside_table_breaks_walk (m : MarkovChain) (s : string)
  (length : Z) (random_seed : option Z) (g : rng)
  (Hlen : len s = order m)
  (Hkey : dict_contains s (transitions m) = false) :
  initial_context m (Some s) g = (Ok s, g)
  /\ (length <= order m ->
      fst (generate m length (Some s) random_seed g) = Ok s)
  /\ (order m < length ->
      fst (generate m length (Some s) random_seed g) = Raise KeyError)
  /\ Run1768562193727.initial_context m (Some s) g
     = choice (dict_keys (transitions m)) g.
Proof.
  split; [now apply initial_context_seeded|]. split; [|split].
  - intros Hle. rewrite generate_no_walk by exact Hle.
    now rewrite initial_context_seeded.
  - intros Hgt. rewrite generate_unfold. cbv zeta.
    rewrite initial_context_seeded by exact Hlen.
    destruct (range_positive (length - order m) ltac:(lia)) as [r ->].
    cbn [for_m]. unfold mbind. rewrite walk_step_dead_end; [reflexivity|].
    unfold dict_contains in Hkey.
    destruct (dict_get s (transitions m)); [discriminate|reflexivity].
  - unfold Run1768562193727.initial_context.
    now rewrite Hkey, orb_true_r.
Qed.

(** C8, as amended.  With [length <= order], [generate] is the selection of
    the initial context and nothing else: it returns that context whole, not
    clipped to [length].  On a well-formed model with a non-empty table the
    call does not fail and the string has exactly [order] characters; so it
    is for [length = order]. *)
Theorem generate_short_returns_context (m : MarkovChain) (length : Z)
  (seed : option string) (random_seed : option Z) (g : rng)
  (Hlen : length <= order m) :
  generate m length seed random_seed g
  = initial_context m seed (snd (reseed random_seed g))
  /\ (wf_model m = true -> transitions m <> [] ->
      exists c,
        fst (generate m length seed random_seed g) = Ok c
        /\ len c = order m).
Proof.
  split; [now apply generate_no_walk|].
  intros Hwf Hne. rewrite generate_no_walk by exact Hlen.
  set (g0 := snd (reseed random_seed g)).
  assert (Hrun : exists c g1, initial_context m seed g0 = (Ok c, g1)).
  { unfold initial_context.
    assert (Hkeys : dict_keys (transitions m) <> [])
      by (destruct (transitions m); [congruence|discriminate]).
    destruct (choice_nonempty _ g0 Hkeys) as (key & Hc & _).
    destruct seed as [s|]; [destruct (len s =? order m)|]; eauto.
    eexists _, _. reflexivity. }
  destruct Hrun as (c & g1 & Hrun). exists c. rewrite Hrun.
  split; [reflexivity|]. eapply initial_context_length; eauto.
Qed.
End SeedClaims.

Lemma seed_outside_table_breaks_walk_witness :
  fst (generate (R := lcg)
         {| order := 1; transitions := [("a", [("b", 1)])] |}
         2 (Some "z") (Some 0) 0) = Raise KeyError.
Proof.
  apply (seed_outside_table_breaks_walk (R := lcg)
           {| order := 1; transitions := [("a", [("b", 1)])] |}
           "z" 2 (Some 0) 0 eq_refl eq_refl).
  simpl. lia.
Defined.

Lemma generate_short_returns_context_witness :
  exists c,
    fst (generate (R := lcg)
           {| order := 2; transitions := [("ab", [("c", 1)])] |}
           1 None (Some 7) 0) = Ok c
    /\ len c = 2.
Proof.
  apply (generate_short_returns_context (R := lcg)
           {| order := 2; transitions := [("ab", [("c", 1)])] |}
           1 None (Some 7) 0).
  - simpl. lia.
  - reflexivity.
  - discriminate.
Defined.

(** C7 fails on the embedded copy: ["z"] has the length of the order and is
    no key of the table trained on ["ab"]; it is not treated as absent but
    used as the starting context.  It comes back as the output for
    [length = 1], and for [length = 2] the call fails with [KeyError].  The
    copy [run_1768562193727] starts from the key ["a"] and returns ["a"] and
    ["ab"]. *)
Lemma seed_outside_table_is_used :
  (m <- init 1 ;; train m "ab")
  = Ok {| order := 1; transitions := [("a", [("b", 1)])] |}
  /\ dict_contains "z" [("a", [("b", 1)])] = false
  /\ initial_context (R := lcg)
       {| order := 1; transitions := [("a", [("b", 1)])] |} (Some "z") 0
     = (Ok "z", 0)
  /\ fst (generate (R := lcg)
            {| order := 1; transitions := [("a", [("b", 1)])] |}
            1 (Some "z") (Some 0) 0) = Ok "z"
  /\ fst (generate (R := lcg)
            {| order := 1; transitions := [("a", [("b", 1)])] |}
            2 (Some "z") (Some 0) 0) = Raise KeyError
  /\ fst (Run1768562193727.generate (R := lcg)
            {| order := 1; transitions := [("a", [("b", 1)])] |}
            1 (Some "z") (Some 0) 0) = Ok "a"
  /\ fst (Run1768562193727.generate (R := lcg)
            {| order := 1; transitions := [("a", [("b", 1)])] |}
            2 (Some "z") (Some 0) 0) = Ok "ab".
Proof. repeat split. Qed.

(** C8 as stated fails: with order 3 and [length = 2] the output is the
    three characters of the context, not its first two. *)
Lemma generate_short_not_clipped :
  (m <- init 3 ;; train m "abcd")
  = Ok {| order := 3; transitions := [("abc", [("d", 1)])] |}
  /\ fst (generate (R := lcg)
            {| order := 3; transitions := [("abc", [("d", 1)])] |}
            2 None (Some 0) 0) = Ok "abc"
  /\ str_slice "abc" None (Some 2) = "ab"
  /\ fst (generate (R := lcg)
            {| order := 3; transitions := [("abc", [("d", 1)])] |}
            2 None (Some 0) 0) <> Ok (str_slice "abc" None (Some 2)).
Proof. repeat split. vm_compute. discriminate. Qed.

(** ** Weighted sampling *)

Lemma fold_left_add_from (ws : list Z) (a : Z) :
  fold_left Z.add ws a = a + fold_left Z.add ws 0.
Proof.
  revert a. induction ws as [|w ws IH]; intros a; simpl; [lia|].
  rewrite (IH (a + w)), (IH w). lia.
Qed.

Lemma sum_cons (w : Z) (ws : list Z) : sum (w :: ws) = w + sum ws.
Proof. unfold sum. simpl. apply fold_left_add_from. Qed.

Lemma prefix_sum_0 (ws : list Z) : prefix_sum ws 0 = 0.
Proof. reflexivity. Qed.

Lemma prefix_sum_cons (w : Z) (ws : list Z) (j : nat) :
  prefix_sum (w :: ws) (S j) = w + prefix_sum ws j.
Proof. unfold prefix_sum. cbn [firstn]. apply sum_cons. Qed.

Lemma prefix_sum_all (ws : list Z) : prefix_sum ws (List.length ws) = sum ws.
Proof. unfold prefix_sum. now rewrite firstn_all. Qed.

Lemma prefix_sum_S (ws : list Z) : forall (j : nat) (w : Z),
  nth_error ws j = Some w -> prefix_sum ws (S j) = prefix_sum ws j + w.
Proof.
  induction ws as [|w0 ws IH]; intros [|j] w H; try discriminate.
  - injection H as ->. rewrite prefix_sum_cons, !prefix_sum_0. lia.
  - rewrite !prefix_sum_cons, (IH j w H). lia.
Qed.

Lemma prefix_sum_mono (ws : list Z) :
  Forall (fun w => 1 <= w) ws ->
  forall i j : nat, (i <= j)%nat -> prefix_sum ws i <= prefix_sum ws j.
Proof.
  induction 1 as [|w ws Hw _ IH]; intros i j Hij.
  - unfold prefix_sum. now rewrite !firstn_nil.
  - destruct i as [|i], j as [|j]; try lia.
    + rewrite prefix_sum_0, prefix_sum_cons.
      specialize (IH 0%nat j ltac:(lia)). rewrite prefix_sum_0 in IH. lia.
    + rewrite !prefix_sum_cons. specialize (IH i j ltac:(lia)). lia.
Qed.

Lemma length_accumulate_from (ws : list Z) : forall acc,
  List.length (accumulate_from acc ws) = List.length ws.
Proof. induction ws as [|w ws IH]; intros acc; simpl; [|rewrite IH]; reflexivity. Qed.

Lemma nth_accumulate_from (ws : list Z) : forall (acc : Z) (i : nat),
  (i < List.length ws)%nat ->
  nth i (accumulate_from acc ws) 0 = acc + prefix_sum ws (S i).
Proof.
  induction ws as [|w ws IH]; intros acc i Hi; simpl in Hi; [lia|].
  destruct i as [|i]; cbn [accumulate_from nth].
  - rewrite prefix_sum_cons, prefix_sum_0. lia.
  - rewrite IH by lia. rewrite (prefix_sum_cons w ws (S i)). lia.
Qed.

Lemma rev_accumulate_from (ws : list Z) : forall acc,
  ws <> [] ->
  exists l, rev (accumulate_from acc ws) = (acc + sum ws) :: l.
Proof.
  induction ws as [|w ws IH]; intros acc Hne; [congruence|].
  destruct ws as [|w2 ws].
  - exists []. cbn. unfold sum. simpl. reflexivity.
  - destruct (IH (acc + w)) as [l Hl]; [discriminate|].
    exists (l ++ [acc + w])%list.
    change (accumulate_from acc (w :: w2 :: ws))
      with ((acc + w) :: accumulate_from (acc + w) (w2 :: ws)).
    cbn [rev]. rewrite Hl. rewrite (sum_cons w). cbn [app].
    f_equal. lia.
Qed.

(** *** Rounding to a double *)

Lemma round53_small (n : Z) : n < 2 ^ 53 -> round53 n = n.
Proof.
  intros H. unfold round53. destruct (Z.ltb_spec n (2 ^ 53)); [reflexivity|lia].
Qed.

(** Rounding moves an integer by at most half a unit in the last place: a
    relative error of at most [2^-53]. *)
Lemma round53_error (n : Z) : 0 <= n -> Z.abs (round53 n - n) * 2 ^ 53 <= n.
Proof.
  intros Hn. unfold round53. destruct (Z.ltb_spec n (2 ^ 53)) as [Hs|Hb].
  - rewrite Z.sub_diag. cbn [Z.abs]. lia.
  - assert (Hn0 : 0 < n) by lia.
    destruct (Z.log2_spec n Hn0) as [Hlo Hhi].
    assert (HL : 53 <= Z.log2 n) by (apply Z.log2_le_pow2; lia).
    cbv zeta.
    set (e := Z.log2 n - 52) in *.
    assert (He : 1 <= e) by lia.
    assert (HP : 2 ^ e = 2 * 2 ^ (e - 1)).
    { replace e with (Z.succ (e - 1)) at 1 by lia. apply Z.pow_succ_r. lia. }
    assert (Hhalf : 2 ^ (e - 1) * 2 ^ 53 = 2 ^ Z.log2 n).
    { rewrite <- Z.pow_add_r by lia. f_equal. lia. }
    assert (Hh0 : 0 < 2 ^ (e - 1)) by (apply Z.pow_pos_nonneg; lia).
    pose proof (Z.div_mod n (2 ^ e) ltac:(lia)) as Hdm.
    pose proof (Z.mod_pos_bound n (2 ^ e) ltac:(lia)) as Hr.
    set (q := n / 2 ^ e) in *. set (r := n mod 2 ^ e) in *.
    set (h := 2 ^ (e - 1)) in *. set (P := 2 ^ e) in *.
    set (L := 2 ^ Z.log2 n) in *.
    destruct (Z.ltb_spec r h);
      [|destruct (Z.ltb_spec h r); [|destruct (Z.even q)]]; nia.
Qed.

(** Rounding does not go below a power of two that the integer has
    reached. *)
Lemma round53_ge_pow2 (n b : Z) :
  53 <= b -> 2 ^ b <= n -> 2 ^ b <= round53 n.
Proof.
  intros Hb Hn.
  assert (H53 : 2 ^ 53 <= 2 ^ b) by (apply Z.pow_le_mono_r; lia).
  unfold round53. destruct (Z.ltb_spec n (2 ^ 53)) as [Hs|_]; [lia|].
  assert (Hn0 : 0 < n) by lia.
  destruct (Z.log2_spec n Hn0) as [Hlo _].
  assert (HL : b <= Z.log2 n) by (apply Z.log2_le_pow2; lia).
  assert (HbL : 2 ^ b <= 2 ^ Z.log2 n) by (apply Z.pow_le_mono_r; lia).
  cbv zeta. set (e := Z.log2 n - 52) in *.
  assert (He : 2 ^ e * 2 ^ 52 = 2 ^ Z.log2 n).
  { rewrite <- Z.pow_add_r by lia. f_equal. lia. }
  assert (HP : 0 < 2 ^ e) by (apply Z.pow_pos_nonneg; lia).
  assert (Hq : 2 ^ 52 <= n / 2 ^ e).
  { apply Z.div_le_lower_bound; [exact HP|]. lia. }
  set (q := n / 2 ^ e) in *. set (P := 2 ^ e) in *.
  set (L := 2 ^ Z.log2 n) in *.
  destruct (_ <? _); [|destruct (_ <? _); [|destruct (Z.even q)]]; nia.
Qed.

Lemma round53_positive (n : Z) : 1 <= n -> 1 <= round53 n.
Proof. intros Hn. pose proof (round53_error n ltac:(lia)). lia. Qed.

Lemma round53_nonneg (n : Z) : 0 <= n -> 0 <= round53 n.
Proof. intros Hn. pose proof (round53_error n Hn). lia. Qed.

(** A positive sum of weights below [float_max_int] converts to its nearest
    double; from [float_max_int] on the conversion raises. *)
Lemma to_float_positive (n : Z) :
  1 <= n -> n < float_max_int -> to_float n = Ok (round53 n).
Proof.
  intros Hn Hmax. unfold to_float. rewrite Z.abs_eq by lia.
  destruct (Z.leb_spec float_max_int n); [lia|].
  rewrite Z.sgn_pos by lia. now rewrite Z.mul_1_l.
Qed.

Lemma to_float_overflow (n : Z) :
  float_max_int <= n -> to_float n = Raise OverflowError.
Proof.
  intros Hmax. unfold to_float.
  assert (0 <= float_max_int) by (vm_compute; discriminate).
  rewrite Z.abs_eq by lia.
  destruct (Z.leb_spec float_max_int n); [reflexivity|lia].
Qed.

Lemma lt_float_int_spec (x : Z) (y : Z) :
  lt_float_int x y = true <-> x < y * 2 ^ 53.
Proof. unfold lt_float_int. apply Z.ltb_lt. Qed.

(** The binary search stays within its bounds. *)
Lemma bisect_loop_range (a : list Z) (x : Z) :
  forall (fuel : nat) (lo hi : Z),
    lo <= hi -> lo <= bisect_loop fuel a x lo hi <= hi.
Proof.
  induction fuel as [|fuel IH]; intros lo hi Hlo; cbn [bisect_loop]; [lia|].
  destruct (Z.ltb_spec lo hi) as [Hlt|Hge]; [|lia].
  assert (Hmid : lo <= (lo + hi) / 2 < hi).
  { split; [apply Z.div_le_lower_bound; lia|apply Z.div_lt_upper_bound; lia]. }
  destruct (lt_float_int x _).
  - specialize (IH lo ((lo + hi) / 2) ltac:(lia)). lia.
  - specialize (IH ((lo + hi) / 2 + 1) hi ltac:(lia)). lia.
Qed.

(** The binary search on a list over which [x < a[i]] is monotone in [i]:
    it returns the boundary between the entries [<= x] and those [> x]. *)
Lemma bisect_loop_boundary (a : list Z) (x : Z) (n : Z)
  (Hmono : forall i j : Z,
     0 <= i <= j -> j < n ->
     lt_float_int x (nth (Z.to_nat i) a 0) = true ->
     lt_float_int x (nth (Z.to_nat j) a 0) = true) :
  forall (fuel : nat) (lo hi : Z),
    0 <= lo <= hi -> hi <= n -> hi - lo < Z.of_nat fuel ->
    let r := bisect_loop fuel a x lo hi in
    lo <= r <= hi
    /\ (forall i, lo <= i < r -> lt_float_int x (nth (Z.to_nat i) a 0) = false)
    /\ (forall i, r <= i < hi -> lt_float_int x (nth (Z.to_nat i) a 0) = true).
Proof.
  induction fuel as [|fuel IH]; intros lo hi Hlo Hhi Hfuel; [lia|].
  cbn [bisect_loop]. destruct (Z.ltb_spec lo hi) as [Hlt|Hge].
  - assert (Hmid : lo <= (lo + hi) / 2 < hi).
    { split; [apply Z.div_le_lower_bound; lia|apply Z.div_lt_upper_bound; lia]. }
    destruct (lt_float_int x (nth (Z.to_nat ((lo + hi) / 2)) a 0)) eqn:E.
    + destruct (IH lo ((lo + hi) / 2)) as (Hr & Hbelow & Habove);
        [lia|lia|lia|].
      cbv zeta. repeat split; try lia; try exact Hbelow.
      intros i Hi. destruct (Z.ltb_spec i ((lo + hi) / 2)).
      * apply Habove. lia.
      * apply (Hmono ((lo + hi) / 2) i); [lia|lia|exact E].
    + destruct (IH ((lo + hi) / 2 + 1) hi) as (Hr & Hbelow & Habove);
        [lia|lia|lia|].
      cbv zeta. repeat split; try lia; try exact Habove.
      intros i Hi. destruct (Z.ltb_spec ((lo + hi) / 2) i).
      * apply Hbelow. lia.
      * destruct (lt_float_int x (nth (Z.to_nat i) a 0)) eqn:Ei; [|reflexivity].
        rewrite (Hmono i ((lo + hi) / 2)) in E; [discriminate|lia|lia|exact Ei].
  - cbv zeta. repeat split; try lia; intros i Hi; lia.
Qed.

(** Over the running sums of positive weights the search, which stops at
    the last position, returns [j] exactly when the product [x] is at or
    above the sum of the weights before [j] and either below the sum up to
    [j] or [j] is the last position. *)
Lemma bisect_accumulate (ws : list Z) (x : Z) (j : nat) :
  Forall (fun w => 1 <= w) ws ->
  (j < List.length ws)%nat ->
  0 <= x ->
  bisect (accumulate ws) x 0 (Z.of_nat (List.length ws) - 1) = Z.of_nat j
  <-> prefix_sum ws j * 2 ^ 53 <= x
      /\ (x < prefix_sum ws (S j) * 2 ^ 53 \/ S j = List.length ws).
Proof.
  intros Hpos Hj Hx.
  set (n := Z.of_nat (List.length ws)).
  assert (Hnth : forall i, 0 <= i < n ->
            nth (Z.to_nat i) (accumulate ws) 0 = prefix_sum ws (S (Z.to_nat i))).
  { intros i Hi. unfold accumulate. rewrite nth_accumulate_from by lia. lia. }
  assert (Hmono : forall a b : nat, (a <= b)%nat ->
            prefix_sum ws a * 2 ^ 53 <= prefix_sum ws b * 2 ^ 53).
  { intros a b Hab. pose proof (prefix_sum_mono ws Hpos a b Hab). lia. }
  destruct (bisect_loop_boundary (accumulate ws) x n) with
    (fuel := S (Z.to_nat (n - 1 - 0))) (lo := 0) (hi := n - 1)
    as (Hr & Hfalse & Htrue); try lia.
  { intros i i' Hi Hi'. rewrite !Hnth by lia. rewrite !lt_float_int_spec.
    intros Hlt. specialize (Hmono (S (Z.to_nat i)) (S (Z.to_nat i')) ltac:(lia)).
    lia. }
  cbv zeta in Hr, Hfalse, Htrue. unfold bisect. fold n.
  set (r := bisect_loop _ _ _ _ _) in *.
  assert (Hlt_false : forall i, 0 <= i < r ->
            prefix_sum ws (S (Z.to_nat i)) * 2 ^ 53 <= x).
  { intros i Hi. specialize (Hfalse i Hi). rewrite Hnth in Hfalse by lia.
    destruct (Z.lt_ge_cases x (prefix_sum ws (S (Z.to_nat i)) * 2 ^ 53))
      as [Hlt|Hge]; [|lia].
    apply lt_float_int_spec in Hlt. congruence. }
  assert (Hlt_true : forall i, r <= i < n - 1 ->
            x < prefix_sum ws (S (Z.to_nat i)) * 2 ^ 53).
  { intros i Hi. specialize (Htrue i Hi). rewrite Hnth in Htrue by lia.
    now apply lt_float_int_spec. }
  split.
  - intros Hrj. split.
    + destruct j as [|j'].
      * now rewrite prefix_sum_0.
      * specialize (Hlt_false (Z.of_nat j') ltac:(lia)).
        now rewrite Nat2Z.id in Hlt_false.
    + destruct (Nat.eq_dec (S j) (List.length ws)) as [|Hne]; [now right|left].
      specialize (Hlt_true (Z.of_nat j) ltac:(lia)).
      now rewrite Nat2Z.id in Hlt_true.
  - intros [Hlo Hhi].
    destruct (Z.lt_trichotomy r (Z.of_nat j)) as [Hlt|[Heq|Hgt]]; [|exact Heq|].
    + specialize (Hlt_true r ltac:(lia)).
      specialize (Hmono (S (Z.to_nat r)) j ltac:(lia)). lia.
    + specialize (Hlt_false (Z.of_nat j) ltac:(lia)).
      rewrite Nat2Z.id in Hlt_false.
      destruct Hhi as [Hhi|Hlast]; lia.
Qed.

Lemma sum_positive (ws : list Z) :
  Forall (fun w => 1 <= w) ws -> ws <> [] -> 1 <= sum ws.
Proof.
  intros Hpos Hne. destruct ws as [|w ws]; [congruence|].
  inversion Hpos as [|? ? Hw Hws]; subst.
  rewrite sum_cons. rewrite <- prefix_sum_all.
  pose proof (prefix_sum_mono ws Hws 0 (List.length ws) ltac:(lia)) as H.
  rewrite prefix_sum_0 in H. lia.
Qed.

Section Sampling.
Context {R : RandomSource}.

(** The product [random() * total] is not negative. *)
Lemma mul_random_nonneg (g : rng) (total : Z) :
  0 <= total -> 0 <= mul_random (fst (random g)) total.
Proof.
  intros Ht. unfold mul_random. apply round53_nonneg.
  pose proof (random_range g). nia.
Qed.

(** On positive weights whose sum converts to a float, [random.choices]
    returns the element at the position the binary search finds. *)
Lemma choices1_runs {A} (population : list A) (ws : list Z) (g : rng) :
  List.length population = List.length ws ->
  Forall (fun w => 1 <= w) ws ->
  ws <> [] ->
  sum ws < float_max_int ->
  exists a,
    nth_error population
      (Z.to_nat (bisect (accumulate ws)
                   (mul_random (fst (random g)) (round53 (sum ws)))
                   0 (Z.of_nat (List.length ws) - 1)))
    = Some a
    /\ choices1 population ws g = (Ok a, snd (random g)).
Proof.
  intros Hlen Hpos Hne Hmax.
  pose proof (sum_positive ws Hpos Hne) as Hsum.
  assert (Hn : (0 < List.length ws)%nat)
    by (destruct ws; [congruence|simpl; lia]).
  set (r := bisect _ _ _ _).
  assert (Hr : 0 <= r <= Z.of_nat (List.length ws) - 1)
    by (apply bisect_loop_range; lia).
  destruct (nth_error population (Z.to_nat r)) as [a|] eqn:Ea;
    [|apply nth_error_None in Ea; lia].
  exists a. split; [reflexivity|].
  unfold choices1, accumulate.
  rewrite length_accumulate_from, Hlen, Z.eqb_refl. cbn [negb].
  destruct (rev_accumulate_from ws 0 Hne) as [l ->]. rewrite Z.add_0_l.
  rewrite (to_float_positive _ Hsum Hmax).
  pose proof (round53_positive _ Hsum) as Htot.
  destruct (Z.leb_spec (round53 (sum ws)) 0) as [|_]; [lia|].
  destruct (random g) as [k gk]. cbn [fst snd] in *.
  fold (accumulate ws). fold r. rewrite Ea. reflexivity.
Qed.

(** When the sum of the weights does not convert to a float,
    [random.choices] raises before it draws. *)
Lemma choices1_overflow {A} (population : list A) (ws : list Z) (g : rng) :
  List.length population = List.length ws ->
  ws <> [] ->
  float_max_int <= sum ws ->
  choices1 population ws g = (Raise OverflowError, g).
Proof.
  intros Hlen Hne Hmax. unfold choices1, accumulate.
  rewrite length_accumulate_from, Hlen, Z.eqb_refl. cbn [negb].
  destruct (rev_accumulate_from ws 0 Hne) as [l ->]. rewrite Z.add_0_l.
  now rewrite (to_float_overflow _ Hmax).
Qed.
End Sampling.

Lemma wf_counts_facts (inner : dict Z) :
  wf_counts inner = true ->
  inner <> []
  /\ NoDup (dict_keys inner)
  /\ Forall (fun w => 1 <= w) (dict_values inner).
Proof.
  unfold wf_counts. rewrite !andb_true_iff. intros [[Hne Hd] Hall].
  split; [destruct inner; [discriminate|discriminate]|].
  split; [now apply distinct_NoDup|].
  unfold dict_values. apply Forall_map. apply Forall_forall.
  intros kv Hkv. rewrite forallb_forall in Hall. specialize (Hall kv Hkv).
  apply andb_true_iff in Hall as [_ H]. lia.
Qed.

Lemma wf_model_counts (m : MarkovChain) (context : string) (inner : dict Z) :
  wf_model m = true ->
  dict_get context (transitions m) = Some inner ->
  wf_counts inner = true.
Proof.
  unfold wf_model, wf_table. rewrite !andb_true_iff.
  intros [_ [_ Hall]] Hget. apply dict_get_In in Hget.
  rewrite forallb_forall in Hall. specialize (Hall _ Hget).
  cbn [fst snd] in Hall. now apply andb_true_iff in Hall.
Qed.

Section SamplingClaim.
Context {R : RandomSource}.

Lemma walk_step_found (m : MarkovChain) (res : list string) (context : string)
  (i : Z) (g : rng) (inner : dict Z) :
  dict_get context (transitions m) = Some inner ->
  walk_step m (res, context) i g
  = match choices1 (dict_keys inner) (dict_values inner) g with
    | (Ok ch, g') =>
        (Ok ((res ++ [ch])%list,
             join (list_slice_from (res ++ [ch])%list (- order m))), g')
    | (Raise e, g') => (Raise e, g')
    end.
Proof.
  intros H. unfold walk_step, mbind, lift, dict_getitem. rewrite H.
  destruct (choices1 _ _ g) as [[ch|e] g']; reflexivity.
Qed.

(** C5, as amended.  In the walk, at a context that is a key of a
    well-formed table, let [count_sum] be the sum of the counts of the
    context, [total] its conversion to a double and [x] the double
    [random() * total], for [random() = k / 2^53].  When [count_sum] does
    not convert to a float the step raises [OverflowError] before it draws.
    Otherwise some candidate is appended, and the candidate at position
    [j], of count [n], is the one appended exactly when [x] is at or above
    [below], the sum of the counts listed before [j], and either below
    [below + n] or [j] is the last position: sampling weighted by count, not
    uniform.  The two roundings move [count_sum] and the exact product
    [k * total / 2^53] by a relative error of at most [2^-53] each, and
    [total] is [count_sum] itself while that is below [2^53]; so the draws
    that choose the candidate are those of an interval of length
    [n / count_sum] up to that rounding.  ([x] is given by its numerator
    over [2^53].) *)
Theorem walk_samples_by_count (m : MarkovChain) (res : list string)
  (context : string) (i : Z) (g : rng) (inner : dict Z) (j : nat)
  (ch : string) (n : Z)
  (Hwf : wf_model m = true)
  (Hctx : dict_get context (transitions m) = Some inner)
  (Hj : nth_error inner j = Some (ch, n)) :
  let count_sum := sum (dict_values inner) in
  let below := prefix_sum (dict_values inner) j in
  let k := fst (random g) in
  let total := round53 count_sum in
  let x := mul_random k total in
  (0 <= below /\ 1 <= n /\ below + n <= count_sum)
  /\ (float_max_int <= count_sum ->
      walk_step m (res, context) i g = (Raise OverflowError, g))
  /\ (count_sum < float_max_int ->
      (exists ch' context',
         In ch' (dict_keys inner)
         /\ walk_step m (res, context) i g
            = (Ok ((res ++ [ch'])%list, context'), snd (random g)))
      /\ ((exists context',
             walk_step m (res, context) i g
             = (Ok ((res ++ [ch])%list, context'), snd (random g)))
          <-> below * 2 ^ 53 <= x
              /\ (x < (below + n) * 2 ^ 53 \/ S j = List.length inner)))
  /\ Z.abs (total - count_sum) * 2 ^ 53 <= count_sum
  /\ (count_sum < 2 ^ 53 -> total = count_sum)
  /\ Z.abs (x - k * total) * 2 ^ 53 <= k * total.
Proof.
  intros count_sum below k total x.
  destruct (wf_counts_facts inner (wf_model_counts _ _ _ Hwf Hctx))
    as (Hne & Hnd & Hpos).
  set (ws := dict_values inner) in *. set (keys := dict_keys inner) in *.
  assert (Hws : nth_error ws j = Some n)
    by (subst ws; unfold dict_values; now rewrite nth_error_map, Hj).
  assert (Hks : nth_error keys j = Some ch)
    by (subst keys; unfold dict_keys; now rewrite nth_error_map, Hj).
  assert (Hlen : List.length keys = List.length ws)
    by (subst keys ws; unfold dict_keys, dict_values; now rewrite !length_map).
  assert (Hlen' : List.length inner = List.length ws)
    by (subst ws; unfold dict_values; now rewrite length_map).
  assert (Hjlt : (j < List.length ws)%nat)
    by (apply nth_error_Some; congruence).
  assert (Hwne : ws <> [])
    by (intros E; rewrite E in Hjlt; simpl in Hjlt; lia).
  assert (HS : prefix_sum ws (S j) = below + n) by (now apply prefix_sum_S).
  assert (Hbounds : 0 <= below /\ 1 <= n /\ below + n <= count_sum).
  { split; [|split].
    - pose proof (prefix_sum_mono ws Hpos 0 j ltac:(lia)) as H.
      now rewrite prefix_sum_0 in H.
    - rewrite Forall_forall in Hpos. apply Hpos.
      eapply nth_error_In; eauto.
    - rewrite <- HS. subst count_sum. rewrite <- prefix_sum_all.
      apply prefix_sum_mono; [exact Hpos|lia]. }
  pose proof (sum_positive ws Hpos Hwne) as Hsum. fold count_sum in Hsum.
  assert (Htot : 1 <= total) by (now apply round53_positive).
  assert (Hk : 0 <= k < 2 ^ 53) by (apply random_range).
  split; [exact Hbounds|].
  rewrite (walk_step_found _ _ _ _ _ _ Hctx). fold keys ws.
  split; [|split; [|split; [|split]]].
  - intros Hmax. now rewrite (choices1_overflow keys ws g Hlen Hwne Hmax).
  - intros Hmax.
    destruct (choices1_runs keys ws g Hlen Hpos Hwne Hmax) as (a & Ha & Hrun).
    fold count_sum total k x in Ha. rewrite Hrun.
    assert (Hx : 0 <= x) by (apply mul_random_nonneg; lia).
    pose proof (bisect_accumulate ws x j Hpos Hjlt Hx) as Hiff.
    rewrite HS in Hiff. fold below in Hiff.
    set (r := bisect _ _ _ _) in *.
    assert (Hr : 0 <= r) by (apply bisect_loop_range; lia).
    split.
    + exists a. eexists. split; [eapply nth_error_In; eauto|reflexivity].
    + rewrite Hlen', <- Hiff. split.
      * intros [context' Hrun']. injection Hrun' as Hres _.
        apply app_inj_tail in Hres as [_ ->].
        assert (Z.to_nat r = j); [|lia].
        rewrite NoDup_nth_error in Hnd. apply Hnd; [|congruence].
        apply nth_error_Some. congruence.
      * intros Hrj. rewrite Hrj, Nat2Z.id in Ha.
        assert (a = ch) by congruence. subst a. eexists. reflexivity.
  - apply round53_error. lia.
  - apply round53_small.
  - apply round53_error. nia.
Qed.
End SamplingClaim.

Lemma walk_samples_by_count_witness :
  exists context',
    walk_step (R := lcg)
      {| order := 1; transitions := [("a", [("b", 3); ("c", 1)])] |}
      (["a"], "a") 0 5
    = (Ok (["a"; "b"], context'), snd (random (RandomSource := lcg) 5)).
Proof.
  destruct (walk_samples_by_count (R := lcg)
              {| order := 1; transitions := [("a", [("b", 3); ("c", 1)])] |}
              ["a"] "a" 0 5 [("b", 3); ("c", 1)] 0 "b" 3
              eq_refl eq_refl eq_refl) as (_ & _ & H & _).
  apply H; [vm_compute; reflexivity|].
  split; [vm_compute; discriminate|left; vm_compute; reflexivity].
Defined.

(** C5 as stated fails: with the counts 2 for [b] and 1 for [c], count
    over total gives [c] a third of the draws.  The draw
    [random() = k0 / 2^53], [k0 = 6004799503160661], lies below [2 / 3]; its
    product with 3 rounds up to [2.0] and the walk appends [c], and so it
    does at every draw from [k0] on: more than a third of the [2^53]
    draws. *)
Lemma walk_rounds_the_draw :
  let m := {| order := 1; transitions := [("a", [("b", 2); ("c", 1)])] |} in
  let k0 := 6004799503160661 in
  k0 * 3 < 2 * 2 ^ 53
  /\ fst (random (RandomSource := dial) k0) = k0
  /\ forall k,
       k0 <= k < 2 ^ 53 ->
       walk_step (R := dial) m (["a"], "a") 0 k = (Ok (["a"; "c"], "c"), k).
Proof.
  intros m k0. split; [vm_compute; reflexivity|].
  split; [vm_compute; reflexivity|].
  intros k Hk.
  rewrite (walk_step_found (R := dial) m ["a"] "a" 0 k [("b", 2); ("c", 1)]
             eq_refl).
  change (dict_keys [("b", 2); ("c", 1)]) with ["b"; "c"].
  change (dict_values [("b", 2); ("c", 1)]) with [2; 1].
  assert (Hpos : Forall (fun w => 1 <= w) [2; 1])
    by (repeat constructor; lia).
  destruct (choices1_runs (R := dial) ["b"; "c"] [2; 1] k eq_refl Hpos
              ltac:(discriminate) ltac:(vm_compute; reflexivity))
    as (a & Ha & Hrun).
  rewrite Hrun.
  assert (Hx : 2 * 2 ^ 53
               <= mul_random (fst (random (RandomSource := dial) k))
                    (round53 (sum [2; 1]))).
  { change (round53 (sum [2; 1])) with 3.
    change (fst (random (RandomSource := dial) k)) with (k mod 2 ^ 53).
    rewrite Z.mod_small by lia. unfold mul_random.
    destruct (Z.eq_dec k k0) as [->|Hne].
    - vm_compute. discriminate.
    - change (2 * 2 ^ 53) with (2 ^ 54). apply round53_ge_pow2; [lia|].
      subst k0. change (2 ^ 54) with 18014398509481984. lia. }
  assert (Hb : bisect (accumulate [2; 1])
                 (mul_random (fst (random (RandomSource := dial) k))
                    (round53 (sum [2; 1])))
                 0 (Z.of_nat (List.length [2; 1]) - 1) = Z.of_nat 1).
  { apply bisect_accumulate; [exact Hpos|cbn; lia|lia|].
    split; [|now right].
    change (prefix_sum [2; 1] 1) with 2. exact Hx. }
  rewrite Hb in Ha. injection Ha as <-. reflexivity.
Qed.

(** ** The sibling copies *)

(** The [train] of [batch_1770640212304] is written with [.get] and a literal
    first entry; it computes what the embedded [train] computes. *)
Lemma train_step_copies_agree (k : Z) (text : string) (t : table) (i : Z) :
  Batch1770640212304_01.train_step k text t i = train_step k text t i.
Proof.
  destruct (str_index text (i + k)) as [nc|e] eqn:E.
  - rewrite (train_step_bump _ _ _ _ _ E).
    unfold Batch1770640212304_01.train_step, bump, dict_contains, dict_getitem.
    rewrite E. cbn [rbind].
    destruct (dict_get _ t) as [inner|]; cbn [negb rbind]; reflexivity.
  - unfold Batch1770640212304_01.train_step, train_step. now rewrite E.
Qed.

(** X5.  The [train] of [batch_1770640212304], which creates a context with
    its first entry and updates with [.get(next_char, 0) + 1], and the
    embedded [train] return the same result on every model and text: the
    same table, keys in the same order, or the same exception. *)
Lemma train_copies_agree (m : MarkovChain) (text : string) :
  Batch1770640212304_01.train m text = train m text.
Proof.
  unfold Batch1770640212304_01.train, train. f_equal.
  generalize (range (len text - order m)) (transitions m).
  induction l as [|i l IH]; intros t; [reflexivity|].
  cbn [for_each]. rewrite train_step_copies_agree.
  destruct (train_step (order m) text t i); cbn [rbind]; [apply IH|reflexivity].
Qed.

(** The walk of [run_1768561810934] draws an integer [rand_val] in
    [1 .. total]; the candidate at position [j], of count [n], is taken
    for exactly the [n] values [below + 1 .. below + n]. *)
Lemma pick_cumulative_by_count (inner : dict Z) :
  forall (j : nat) (ch : string) (n : Z) (rand_val cumulative_count : Z),
    NoDup (dict_keys inner) ->
    Forall (fun w => 1 <= w) (dict_values inner) ->
    nth_error inner j = Some (ch, n) ->
    cumulative_count < rand_val ->
    (Run1768561810934.pick_cumulative rand_val cumulative_count inner = Some ch
     <-> cumulative_count + prefix_sum (dict_values inner) j < rand_val
         /\ rand_val <= cumulative_count + prefix_sum (dict_values inner) j + n).
Proof.
  induction inner as [|[c0 n0] inner IH];
    intros j ch n r acc Hnd Hpos Hj Hacc; [now destruct j|].
  cbn [dict_keys dict_values map fst snd] in *.
  inversion Hnd as [|? ? Hnotin Hnd']; subst.
  inversion Hpos as [|? ? Hn0 Hpos']; subst.
  cbn [Run1768561810934.pick_cumulative].
  destruct j as [|j]; cbn [nth_error] in Hj.
  - injection Hj as -> ->. rewrite prefix_sum_0.
    destruct (Z.leb_spec r (acc + n)) as [Hle|Hgt].
    + split; [lia|reflexivity].
    + split; [|lia]. intros Hpick. exfalso. apply Hnotin.
      clear - Hpick. revert Hpick. generalize (acc + n).
      induction inner as [|[c1 n1] inner IH]; intros a; [discriminate|].
      cbn [Run1768561810934.pick_cumulative map fst].
      destruct (r <=? a + n1); [intros [= ->]; now left|].
      intros H. right. eapply IH. exact H.
  - rewrite prefix_sum_cons.
    pose proof (prefix_sum_mono _ Hpos' 0 j ltac:(lia)) as Hps.
    rewrite prefix_sum_0 in Hps.
    destruct (Z.leb_spec r (acc + n0)) as [Hle|Hgt].
    + split; [|lia]. intros [= ->]. exfalso. apply Hnotin.
      apply nth_error_In in Hj. apply (in_map fst) in Hj. exact Hj.
    + rewrite (IH j ch n r (acc + n0) Hnd' Hpos' Hj Hgt).
      unfold dict_values. lia.
Qed.

Section SiblingFacts.
Context {R : RandomSource}.

(** The walk of [batch_1770643297744/..._run_03] reads the candidates and not
    their counts: two tables that list the same candidates for a context
    give the same step, whatever the counts. *)
Lemma uniform_copy_ignores_counts (m1 m2 : MarkovChain) (res : list string)
  (context : string) (i : Z) (g : rng) (inner1 inner2 : dict Z) :
  order m1 = order m2 ->
  dict_get context (transitions m1) = Some inner1 ->
  dict_get context (transitions m2) = Some inner2 ->
  dict_keys inner1 = dict_keys inner2 ->
  Batch1770643297744_03.walk_step m1 (res, context) i g
  = Batch1770643297744_03.walk_step m2 (res, context) i g.
Proof.
  intros Ho H1 H2 Hk. unfold Batch1770643297744_03.walk_step.
  rewrite H1, H2, Ho.
  destruct inner1 as [|kv1 inner1], inner2 as [|kv2 inner2];
    try discriminate; [reflexivity|].
  now rewrite Hk.
Qed.

(** In [run_1768562193727] a seed that is not a key is treated as absent. *)
Lemma membership_copy_ignores_foreign_seed (m : MarkovChain) (s : string)
  (g : rng) :
  dict_contains s (transitions m) = false ->
  Run1768562193727.initial_context m (Some s) g
  = choice (dict_keys (transitions m)) g.
Proof.
  intros H. unfold Run1768562193727.initial_context.
  now rewrite H, orb_true_r.
Qed.

(** In [release_gate_after_schema_first_177179/..._run_03] a seed of another
    length makes the call fail. *)
Lemma schema_first_refuses_seed (m : MarkovChain) (length : Z) (s : string)
  (random_seed : option Z) (g : rng) :
  len s <> order m ->
  SchemaFirst177179_03.generate m length (Some s) random_seed g
  = (Raise ValueError, g).
Proof.
  intros H. unfold SchemaFirst177179_03.generate, mbind.
  unfold SchemaFirst177179_03.check_seed.
  apply Z.eqb_neq in H. now rewrite H.
Qed.
End SiblingFacts.

(** A dead end: trained on ["ab"] with order 1, the walk from ["a"] reaches
    ["b"], which is no key.  The embedded copy raises [KeyError] there; the
    copies [run_1768561810934] and [run_1768562193727] stop and return the
    two characters they have. *)
Remark dead_end_raises_or_truncates :
  fst (generate (R := lcg)
         {| order := 1; transitions := [("a", [("b", 1)])] |}
         3 (Some "a") (Some 0) 0) = Raise KeyError
  /\ fst (Run1768561810934.generate (R := lcg)
            {| order := 1; transitions := [("a", [("b", 1)])] |}
            3 (Some "a") (Some 0) 0) = Ok "ab"
  /\ fst (Run1768562193727.generate (R := lcg)
            {| order := 1; transitions := [("a", [("b", 1)])] |}
            3 (Some "a") (Some 0) 0) = Ok "ab".
Proof. repeat split. Qed.

(** The copy [batch_1770640212304] returns the sampled characters without
    the context: with [length = order = 1] and seed ["a"] it returns the
    character sampled after ["a"]. *)
Remark sampled_only_copy_omits_context :
  fst (Batch1770640212304_01.generate (R := lcg)
         {| order := 1; transitions := [("a", [("b", 1)]); ("b", [("a", 1)])] |}
         1 (Some "a") (Some 0) 0) = Ok "b".
Proof. reflexivity. Qed.

(** ** The sliding window *)

Lemma substring_whole (s : string) : substring 0 (String.length s) s = s.
Proof.
  rewrite <- (append_empty_r s) at 2. apply substring_prefix.
Qed.

Lemma str_slice_tail (a : ascii) (s : string) :
  str_slice (String a s) (Some 1) None = s.
Proof.
  unfold str_slice, slice_bound, len. cbn [String.length].
  destruct (Z.ltb_spec 1 0) as [|_]; [lia|].
  replace (Z.to_nat (Z.min 1 (Z.of_nat (S (String.length s))))) with 1%nat by lia.
  replace (Z.to_nat (Z.of_nat (S (String.length s))
                     - Z.min 1 (Z.of_nat (S (String.length s)))))
    with (String.length s) by lia.
  cbn [substring]. apply substring_whole.
Qed.

(** The sliding window: with [res] made of single characters and at least
    [k >= 1] long, the last [k] items of [res + [ch]], joined, are the last
    [k] items of [res], joined, without their first character and with [ch]
    appended. *)
Lemma window_slides (res : list string) (ch : string) (k : Z) :
  1 <= k <= Z.of_nat (List.length res) ->
  Forall (fun x => len x = 1) res ->
  join (list_slice_from (res ++ [ch])%list (- k))
  = str_slice (join (list_slice_from res (- k))) (Some 1) None ++ ch.
Proof.
  intros Hk Hunits. unfold list_slice_from, slice_bound.
  destruct (Z.ltb_spec (- k) 0) as [_|]; [|lia].
  rewrite length_app. cbn [List.length].
  set (L := List.length res) in *.
  replace (Z.to_nat (Z.max 0 (Z.of_nat (L + 1) + - k)))
    with (S (Z.to_nat (Z.max 0 (Z.of_nat L + - k)))) by lia.
  set (d := Z.to_nat (Z.max 0 (Z.of_nat L + - k))).
  assert (Hd : (d < L)%nat) by lia.
  rewrite skipn_app. replace (S d - List.length res)%nat with 0%nat by lia.
  rewrite skipn_O, join_app.
  destruct (skipn d res) as [|x rest] eqn:E.
  - apply (f_equal (@List.length string)) in E. rewrite length_skipn in E.
    cbn in E. lia.
  - assert (Hrest : skipn (S d) res = rest).
    { replace (S d) with (1 + d)%nat by lia.
      rewrite <- skipn_skipn, E. reflexivity. }
    rewrite Hrest.
    assert (Hx : len x = 1).
    { rewrite Forall_forall in Hunits. apply Hunits.
      rewrite <- (firstn_skipn d res). apply in_or_app. right.
      rewrite E. now left. }
    destruct x as [|a [|b x]]; try (unfold len in Hx; cbn in Hx; lia).
    rewrite (join_cons (String a EmptyString)). cbn [append].
    rewrite str_slice_tail. reflexivity.
Qed.

Lemma float_safe_counts_of (m : MarkovChain) (context : string)
  (inner : dict Z) :
  float_safe m = true ->
  dict_get context (transitions m) = Some inner ->
  float_safe_counts inner = true.
Proof.
  unfold float_safe. intros Hall Hget. apply dict_get_In in Hget.
  rewrite forallb_forall in Hall. exact (Hall _ Hget).
Qed.

Section SafeCounts.
Context {R : RandomSource}.

(** On well-formed counts whose sum converts to a float [random.choices]
    does not raise. *)
Lemma choices1_total (inner : dict Z) (g : rng) :
  wf_counts inner = true ->
  float_safe_counts inner = true ->
  exists a,
    In a (dict_keys inner)
    /\ choices1 (dict_keys inner) (dict_values inner) g
       = (Ok a, snd (random g)).
Proof.
  intros Hwf Hsafe. destruct (wf_counts_facts inner Hwf) as (Hne & _ & Hpos).
  set (ws := dict_values inner) in *. set (keys := dict_keys inner).
  assert (Hlen : List.length keys = List.length ws)
    by (subst keys ws; unfold dict_keys, dict_values; now rewrite !length_map).
  assert (Hws : ws <> [])
    by (subst ws; destruct inner; [congruence|discriminate]).
  unfold float_safe_counts in Hsafe. fold ws in Hsafe.
  apply Z.ltb_lt in Hsafe.
  destruct (choices1_runs keys ws g Hlen Hpos Hws Hsafe) as (a & Ha & Hrun).
  exists a. split; [eapply nth_error_In; eauto|exact Hrun].
Qed.

(** On well-formed counts whose sum does not convert, it raises
    [OverflowError]. *)
Lemma choices1_unsafe (inner : dict Z) (g : rng) :
  wf_counts inner = true ->
  float_safe_counts inner = false ->
  choices1 (dict_keys inner) (dict_values inner) g = (Raise OverflowError, g).
Proof.
  intros Hwf Hsafe. destruct (wf_counts_facts inner Hwf) as (Hne & _ & Hpos).
  apply choices1_overflow.
  - unfold dict_keys, dict_values. now rewrite !length_map.
  - destruct inner; [congruence|discriminate].
  - unfold float_safe_counts in Hsafe. now apply Z.ltb_ge in Hsafe.
Qed.
End SafeCounts.

(** Every trained model is well-formed. *)
Lemma trained_model_wf (k : Z) (texts : list string) :
  1 <= k ->
  exists m,
    (m0 <- init k ;; train_all m0 texts) = Ok m /\ wf_model m = true.
Proof.
  intros Hk. unfold init. destruct (Z.leb_spec k 0) as [|_]; [lia|].
  cbn [rbind].
  destruct (train_all_spec texts {| order := k; transitions := [] |} Hk)
    as (m & Hrun & Ho & Hwf & _).
  cbn [order transitions] in *. exists m. split; [exact Hrun|].
  unfold wf_model. rewrite Ho. apply andb_true_iff. split; [lia|].
  apply Hwf. reflexivity.
Qed.

(** An object whose order passes the check of [__init__] comes back from
    [from_dict(to_dict(...))] as it is. *)
Lemma from_dict_to_dict_instance (o : instance) :
  not_le_zero (inst_order o) = true -> from_dict (to_dict o) = Ok o.
Proof.
  intros Hpos. apply le_zero_not_le_zero in Hpos.
  unfold from_dict, to_dict, subscript, dict_getitem, init_value.
  cbn [dict_get String.eqb Ascii.eqb Bool.eqb rbind].
  rewrite Hpos. cbn [rbind inst_order]. now destruct o.
Qed.

(* ================================================================== *)
(** * Further properties of training *)
(* ================================================================== *)

Lemma sum_nil : sum [] = 0.
Proof. reflexivity. Qed.

Lemma weight_cons {V} (f : V -> Z) (k : string) (v : V) (d : dict V) :
  weight f ((k, v) :: d) = f v + weight f d.
Proof. unfold weight. cbn [map snd]. apply sum_cons. Qed.

(** Storing [v] under [k] changes the weight by [f v] minus what the key
    held. *)
Lemma weight_dict_set {V} (f : V -> Z) (d : dict V) (k : string) (v : V) :
  weight f (dict_set k v d)
  = weight f d
    - match dict_get k d with Some old => f old | None => 0 end
    + f v.
Proof.
  induction d as [|[k' v'] d IH]; cbn [dict_set dict_get].
  - rewrite weight_cons. unfold weight. cbn [map]. rewrite sum_nil. lia.
  - destruct (String.eqb k' k); rewrite !weight_cons; [lia|].
    rewrite IH. lia.
Qed.

Lemma sum_values_weight (inner : dict Z) :
  sum (dict_values inner) = weight (fun n => n) inner.
Proof. reflexivity. Qed.

Lemma total_count_bump (t : table) (c ch : string) :
  total_count (bump c ch t) = total_count t + 1.
Proof.
  unfold total_count, bump. rewrite weight_dict_set.
  rewrite (sum_values_weight (dict_set _ _ _)), weight_dict_set.
  destruct (dict_get c t) as [inner|]; cbn [dict_get].
  - rewrite <- sum_values_weight. destruct (dict_get ch inner); lia.
  - unfold weight. cbn [map]. rewrite sum_nil. lia.
Qed.

Lemma keys_bump (t : table) (c ch : string) :
  dict_keys (bump c ch t)
  = (dict_keys t ++ if dict_contains c t then [] else [c])%list.
Proof.
  unfold bump. rewrite dict_keys_set.
  destruct (dict_contains c t); [now rewrite app_nil_r|reflexivity].
Qed.

(** The loop of [train]: one more transition counted per position, and the
    keys it creates go after the keys that were there. *)
Lemma train_loop_shape (k : Z) (text : string) (Hk : 1 <= k) :
  forall (ps : list Z) (t : table),
    (forall i, In i ps -> 0 <= i < len text - k) ->
    exists t' added,
      for_each (train_step k text) ps t = Ok t'
      /\ total_count t' = total_count t + Z.of_nat (List.length ps)
      /\ dict_keys t' = (dict_keys t ++ added)%list.
Proof.
  induction ps as [|i ps IH]; intros t Hps.
  - exists t, []. cbn [for_each List.length]. rewrite app_nil_r.
    repeat split. lia.
  - assert (Hi : 0 <= i < len text - k) by (apply Hps; now left).
    destruct (str_index_in_range text (i + k)) as [a Ha]; [lia|].
    destruct (IH (bump (str_slice text (Some i) (Some (i + k)))
                    (String a EmptyString) t))
      as (t' & added & Hrun & Htotal & Hkeys).
    { intros j Hj. apply Hps. now right. }
    eexists t', _. cbn [for_each]. rewrite (train_step_bump _ _ _ _ _ Ha).
    cbn [rbind]. split; [exact Hrun|]. split.
    + rewrite Htotal, total_count_bump. cbn [List.length]. lia.
    + rewrite Hkeys, keys_bump, <- app_assoc. reflexivity.
Qed.

Lemma train_shape (m : MarkovChain) (text : string) :
  1 <= order m ->
  exists m' added,
    train m text = Ok m'
    /\ order m' = order m
    /\ total_count (transitions m')
       = total_count (transitions m) + Z.max 0 (len text - order m)
    /\ dict_keys (transitions m') = (dict_keys (transitions m) ++ added)%list.
Proof.
  intros Hk.
  destruct (train_loop_shape (order m) text Hk (range (len text - order m))
              (transitions m)) as (t' & added & Hrun & Htotal & Hkeys).
  { intros i Hi. now apply in_range in Hi. }
  exists {| order := order m; transitions := t' |}, added.
  unfold train. rewrite Hrun. cbn [rbind order transitions].
  repeat split; try assumption.
  rewrite Htotal, length_range. lia.
Qed.

(** X1.  Well-formedness is an invariant of the model: the constructor
    establishes it for every order [k >= 1], and [train] on a well-formed
    model does not raise and returns a well-formed model of the same order
    (distinct keys of [order] characters, each with at least one next
    character, each next character one character long with a count of at
    least 1). *)
Theorem train_keeps_well_formed :
  (forall k, 1 <= k -> exists m0, init k = Ok m0 /\ wf_model m0 = true)
  /\ (forall m text,
        wf_model m = true ->
        exists m',
          train m text = Ok m'
          /\ order m' = order m
          /\ wf_model m' = true).
Proof.
  split.
  - intros k Hk. unfold init. destruct (Z.leb_spec k 0) as [|_]; [lia|].
    eexists. split; [reflexivity|]. unfold wf_model. cbn.
    apply andb_true_iff. split; [lia|reflexivity].
  - intros m text Hwf. unfold wf_model in Hwf.
    apply andb_true_iff in Hwf as [Hk Hwf].
    destruct (train_spec m text) as (m' & Hrun & Ho & Hkeep & _); [lia|].
    exists m'. split; [exact Hrun|]. split; [exact Ho|].
    unfold wf_model. rewrite Ho. apply andb_true_iff. split; [exact Hk|].
    now apply Hkeep.
Qed.

(** X2.  One call of [train] on a model of order [k >= 1] counts exactly
    [max(0, len(text) - k)] transitions: the sum of all counts of the table
    grows by that number, whatever the text holds. *)
Theorem train_counts_every_position (m : MarkovChain) (text : string)
  (Hk : 1 <= order m) :
  exists m',
    train m text = Ok m'
    /\ total_count (transitions m')
       = total_count (transitions m) + Z.max 0 (len text - order m).
Proof.
  destruct (train_shape m text Hk) as (m' & added & Hrun & _ & Htotal & _).
  exists m'. split; assumption.
Qed.

Lemma train_counts_every_position_witness :
  exists m',
    train {| order := 2; transitions := [("ab", [("c", 1)])] |} "abcab" = Ok m'
    /\ total_count (transitions m') = 1 + 3.
Proof.
  apply (train_counts_every_position
           {| order := 2; transitions := [("ab", [("c", 1)])] |} "abcab").
  simpl. lia.
Defined.

(** *** The keys a call of [train] adds *)

(** [fresh seen cs] holds the strings of [cs] that are not in [seen], each
    once. *)
Lemma fresh_In (cs : list string) : forall (seen : list string) (c : string),
  In c (fresh seen cs) <-> In c cs /\ ~ In c seen.
Proof.
  induction cs as [|c0 cs IH]; intros seen c; cbn [fresh].
  - cbn. tauto.
  - destruct (existsb (String.eqb c0) seen) eqn:E.
    + apply existsb_eqb_In in E. rewrite IH. cbn [In]. split.
      * tauto.
      * intros [[->|H] Hn]; [contradiction|tauto].
    + assert (Hc0 : ~ In c0 seen).
      { intros H. apply existsb_eqb_In in H. congruence. }
      cbn [In]. rewrite IH. cbn [In]. split.
      * intros [->|[H Hn]]; tauto.
      * intros [[->|H] Hn]; [now left|].
        destruct (string_dec c0 c) as [->|Hne]; [now left|right].
        tauto.
Qed.

Lemma fresh_NoDup (cs : list string) : forall seen : list string,
  NoDup (fresh seen cs).
Proof.
  induction cs as [|c0 cs IH]; intros seen; cbn [fresh]; [constructor|].
  destruct (existsb (String.eqb c0) seen); [apply IH|].
  constructor; [|apply IH].
  rewrite fresh_In. cbn [In]. tauto.
Qed.

(** [fresh] reads [seen] as a set. *)
Lemma fresh_ext (cs : list string) : forall seen1 seen2 : list string,
  (forall x, In x seen1 <-> In x seen2) ->
  fresh seen1 cs = fresh seen2 cs.
Proof.
  induction cs as [|c0 cs IH]; intros seen1 seen2 H; cbn [fresh]; [reflexivity|].
  assert (E : existsb (String.eqb c0) seen1 = existsb (String.eqb c0) seen2).
  { destruct (existsb (String.eqb c0) seen1) eqn:E1,
             (existsb (String.eqb c0) seen2) eqn:E2; try reflexivity.
    - apply existsb_eqb_In, H, existsb_eqb_In in E1. congruence.
    - apply existsb_eqb_In, H, existsb_eqb_In in E2. congruence. }
  rewrite E. destruct (existsb (String.eqb c0) seen2).
  - now apply IH.
  - f_equal. apply IH. intros x. cbn [In]. rewrite H. tauto.
Qed.

(** The loop of [train] appends the contexts it meets for the first time,
    in the order in which it meets them. *)
Lemma train_loop_keys (k : Z) (text : string) (Hk : 1 <= k) :
  forall (ps : list Z) (t : table),
    (forall i, In i ps -> 0 <= i < len text - k) ->
    exists t',
      for_each (train_step k text) ps t = Ok t'
      /\ dict_keys t'
         = (dict_keys t
            ++ fresh (dict_keys t)
                 (map (fun i => str_slice text (Some i) (Some (i + k))) ps))%list.
Proof.
  induction ps as [|i ps IH]; intros t Hps.
  - exists t. cbn [for_each map fresh]. now rewrite app_nil_r.
  - assert (Hi : 0 <= i < len text - k) by (apply Hps; now left).
    destruct (str_index_in_range text (i + k)) as [a Ha]; [lia|].
    set (c := str_slice text (Some i) (Some (i + k))).
    destruct (IH (bump c (String a EmptyString) t)) as (t' & Hrun & Hkeys).
    { intros j Hj. apply Hps. now right. }
    exists t'. cbn [for_each]. rewrite (train_step_bump _ _ _ _ _ Ha).
    cbn [rbind]. fold c. split; [exact Hrun|].
    rewrite Hkeys, keys_bump. cbn [map fresh]. fold c.
    destruct (dict_contains c t) eqn:E.
    + rewrite app_nil_r.
      apply dict_get_in_keys, existsb_eqb_In in E. now rewrite E.
    + assert (E' : existsb (String.eqb c) (dict_keys t) = false).
      { destruct (existsb _ _) eqn:E2; [|reflexivity].
        apply existsb_eqb_In, dict_get_in_keys in E2. congruence. }
      rewrite E', <- app_assoc. cbn [app]. do 2 f_equal.
      apply fresh_ext. intros x. rewrite in_app_iff. cbn [In]. tauto.
Qed.

(** X3.  [train] never removes or moves a key and never lowers a count: the
    keys of the table after the call are the keys before it, in the same
    order, followed by the contexts [text[i:i+order]],
    [0 <= i < len(text) - order], that were not keys, each once, in the
    order of their first occurrence in the text.  So the position of a
    context in [list(transitions.keys())] is fixed once it has been seen. *)
Theorem train_appends_keys (m : MarkovChain) (text : string)
  (Hk : 1 <= order m) :
  let added := fresh (dict_keys (transitions m)) (contexts (order m) text) in
  NoDup added
  /\ (forall c,
        In c added <->
        In c (contexts (order m) text) /\ ~ In c (dict_keys (transitions m)))
  /\ exists m',
       train m text = Ok m'
       /\ dict_keys (transitions m')
          = (dict_keys (transitions m) ++ added)%list
       /\ forall c ch,
            count_of (transitions m) c ch <= count_of (transitions m') c ch.
Proof.
  intros added. split; [apply fresh_NoDup|]. split; [intros c; apply fresh_In|].
  destruct (train_loop_keys (order m) text Hk (range (len text - order m))
              (transitions m)) as (t' & Hrun & Hkeys).
  { intros i Hi. now apply in_range in Hi. }
  destruct (train_spec m text Hk) as (m2 & Hrun2 & _ & _ & Hcnt & _).
  exists m2. split; [exact Hrun2|].
  unfold train in Hrun2. rewrite Hrun in Hrun2. cbn [rbind] in Hrun2.
  injection Hrun2 as <-. cbn [transitions] in *.
  split; [exact Hkeys|].
  intros c ch. rewrite Hcnt.
  pose proof (occurrences_nonneg (order m) text c ch). lia.
Qed.

Lemma train_appends_keys_witness :
  exists m',
    train {| order := 1; transitions := [("b", [("a", 2)])] |} "abcab" = Ok m'
    /\ dict_keys (transitions m') = (["b"] ++ ["a"; "c"])%list
    /\ forall c ch,
         count_of [("b", [("a", 2)])] c ch <= count_of (transitions m') c ch.
Proof.
  apply (train_appends_keys
           {| order := 1; transitions := [("b", [("a", 2)])] |} "abcab").
  simpl. lia.
Defined.

Lemma occurrences_all_perm (k : Z) (c ch : string) (texts1 texts2 : list string) :
  Permutation texts1 texts2 ->
  occurrences_all k texts1 c ch = occurrences_all k texts2 c ch.
Proof.
  induction 1 as [|x l l' _ IH|x y l|l l' l'' _ IH1 _ IH2];
    cbn [occurrences_all]; lia.
Qed.

(** X4.  The counts do not depend on the order of the [train] calls: training
    one model on a sequence of texts and on any rearrangement of it records
    the same count for every context and next character (only the order of
    the keys can differ). *)
Theorem train_order_irrelevant (m : MarkovChain) (texts1 texts2 : list string)
  (Hk : 1 <= order m) (Hperm : Permutation texts1 texts2) :
  exists m1 m2,
    train_all m texts1 = Ok m1
    /\ train_all m texts2 = Ok m2
    /\ forall c ch,
         recorded (transitions m1) c ch = recorded (transitions m2) c ch.
Proof.
  destruct (train_all_spec texts1 m Hk) as (m1 & Hrun1 & _ & _ & Hcnt1 & Hrec1 & _).
  destruct (train_all_spec texts2 m Hk) as (m2 & Hrun2 & _ & _ & Hcnt2 & Hrec2 & _).
  exists m1, m2. split; [exact Hrun1|]. split; [exact Hrun2|].
  intros c ch. specialize (Hcnt1 c ch). specialize (Hcnt2 c ch).
  specialize (Hrec1 c ch). specialize (Hrec2 c ch).
  rewrite (occurrences_all_perm _ _ _ _ _ Hperm) in Hcnt1, Hrec1.
  unfold count_of in Hcnt1, Hcnt2.
  destruct (recorded (transitions m1) c ch) as [n1|] eqn:E1,
           (recorded (transitions m2) c ch) as [n2|] eqn:E2.
  - f_equal. lia.
  - exfalso. assert (H : Some n1 = None); [|discriminate].
    apply Hrec1. now apply Hrec2.
  - exfalso. assert (H : Some n2 = None); [|discriminate].
    apply Hrec2. now apply Hrec1.
  - reflexivity.
Qed.

Lemma train_order_irrelevant_witness :
  exists m1 m2,
    train_all {| order := 1; transitions := [] |} ["ab"; "ba"] = Ok m1
    /\ train_all {| order := 1; transitions := [] |} ["ba"; "ab"] = Ok m2
    /\ forall c ch,
         recorded (transitions m1) c ch = recorded (transitions m2) c ch.
Proof.
  apply (train_order_irrelevant {| order := 1; transitions := [] |}
           ["ab"; "ba"] ["ba"; "ab"]).
  - simpl. lia.
  - apply perm_swap.
Defined.

(** The two tables of the witness list their keys in different orders. *)
Remark train_order_shows_in_keys :
  (m <- train_all {| order := 1; transitions := [] |} ["ab"; "ba"] ;;
   Ok (dict_keys (transitions m))) = Ok ["a"; "b"]
  /\ (m <- train_all {| order := 1; transitions := [] |} ["ba"; "ab"] ;;
      Ok (dict_keys (transitions m))) = Ok ["b"; "a"].
Proof. split; reflexivity. Qed.

(* ================================================================== *)
(** * Further properties of generation *)
(* ================================================================== *)

(** ** Characters of a string and items of a list *)

Lemma units_list_of_str_join (res : list string) :
  Forall (fun x => len x = 1) res -> list_of_str (join res) = res.
Proof.
  induction 1 as [|x res Hx _ IH]; [reflexivity|].
  rewrite join_cons.
  destruct x as [|a [|b x]]; try (unfold len in Hx; cbn in Hx; lia).
  cbn [append list_of_str]. now rewrite IH.
Qed.

Lemma list_of_str_substring (s : string) : forall n m : nat,
  list_of_str (substring n m s) = firstn m (skipn n (list_of_str s)).
Proof.
  induction s as [|c s IH]; intros n m.
  - destruct n, m; cbn; reflexivity.
  - destruct n as [|n].
    + destruct m as [|m]; [reflexivity|].
      cbn [substring list_of_str skipn firstn]. f_equal.
      rewrite (IH 0%nat m). reflexivity.
    + cbn [substring list_of_str skipn]. apply IH.
Qed.

Lemma nth_error_list_of_str (s : string) : forall n : nat,
  nth_error (list_of_str s) n
  = match String.get n s with
    | Some a => Some (String a EmptyString)
    | None => None
    end.
Proof.
  induction s as [|c s IH]; intros [|n]; cbn; try reflexivity. apply IH.
Qed.

Lemma str_slice_substring (s : string) (i k : Z) :
  0 <= i -> 0 <= k -> i + k <= len s ->
  str_slice s (Some i) (Some (i + k))
  = substring (Z.to_nat i) (Z.to_nat k) s.
Proof.
  intros Hi Hk Hlen. unfold str_slice, slice_bound.
  destruct (Z.ltb_spec i 0); [lia|].
  destruct (Z.ltb_spec (i + k) 0); [lia|].
  f_equal; lia.
Qed.

Lemma firstn_skipn_snoc {A} (l : list A) (x : A) (i k : nat) :
  (i + k <= List.length l)%nat ->
  firstn k (skipn i (l ++ [x])) = firstn k (skipn i l).
Proof.
  intros H. rewrite skipn_app.
  replace (i - List.length l)%nat with 0%nat by lia. rewrite skipn_O.
  rewrite firstn_app, length_skipn.
  replace (k - (List.length l - i))%nat with 0%nat by lia.
  cbn [firstn]. now rewrite app_nil_r.
Qed.

Lemma list_slice_last {A} (res : list A) (k : Z) :
  1 <= k <= Z.of_nat (List.length res) ->
  list_slice_from res (- k)
  = skipn (List.length res - Z.to_nat k) res.
Proof.
  intros Hk. unfold list_slice_from, slice_bound.
  destruct (Z.ltb_spec (- k) 0); [|lia]. f_equal. lia.
Qed.

Section Windows.
Context {R : RandomSource}.

(** The walk keeps every [(k+1)]-gram of its result inside the table. *)
Lemma walk_windows (m : MarkovChain) (xs : list Z) :
  wf_model m = true ->
  forall res context g res' context' g',
    Forall (fun x => len x = 1) res ->
    order m <= Z.of_nat (List.length res) ->
    context = join (list_slice_from res (- order m)) ->
    (forall i, (i + Z.to_nat (order m) < List.length res)%nat ->
               window_ok m res i) ->
    for_m (walk_step m) xs (res, context) g = (Ok (res', context'), g') ->
    Forall (fun x => len x = 1) res'
    /\ (forall i, (i + Z.to_nat (order m) < List.length res')%nat ->
                  window_ok m res' i).
Proof.
  intros Hwf.
  assert (Hk : 1 <= order m).
  { unfold wf_model in Hwf. apply andb_true_iff in Hwf as [H _]. lia. }
  induction xs as [|x xs IH];
    intros res context g res' context' g' Hunits Hlen Hctx Hwin Hrun.
  - cbn in Hrun. injection Hrun as <- <- <-. split; assumption.
  - cbn [for_m] in Hrun. unfold mbind in Hrun.
    destruct (walk_step m (res, context) x g) as [[[res1 context1]|e] g1] eqn:E;
      [|discriminate].
    apply walk_step_inv in E as (inner & ch & Hget & Hin & -> & ->).
    eapply IH; [| | reflexivity | | exact Hrun].
    + apply Forall_app. split; [exact Hunits|]. constructor; [|constructor].
      apply (candidate_unit m); [exact Hwf|]. now exists context, inner.
    + rewrite length_app. cbn [List.length]. lia.
    + intros i Hi. rewrite length_app in Hi. cbn [List.length] in Hi.
      unfold window_ok. cbv zeta.
      set (k := Z.to_nat (order m)) in *.
      rewrite firstn_skipn_snoc by lia.
      destruct (Nat.eq_dec (i + k) (List.length res)) as [Hlast|Hold].
      * exists inner, ch. split; [|split; [|exact Hin]].
        -- rewrite firstn_all2 by (rewrite length_skipn; lia).
           rewrite <- Hget. f_equal. rewrite Hctx.
           rewrite list_slice_last by lia. f_equal. f_equal. lia.
        -- rewrite nth_error_app2 by lia.
           replace (i + k - List.length res)%nat with 0%nat by lia.
           reflexivity.
      * destruct (Hwin i ltac:(lia)) as (inner0 & ch0 & H1 & H2 & H3).
        exists inner0, ch0. split; [exact H1|]. split; [|exact H3].
        rewrite nth_error_app1 by lia. exact H2.
Qed.

(** What a returned string is made of: single characters, as many as the
    string is long, every [(k+1)]-gram of them a transition of the table. *)
Lemma generate_windows (m : MarkovChain) (length : Z) (seed : option string)
  (random_seed : option Z) (g : rng) (out : string) :
  wf_model m = true ->
  fst (generate m length seed random_seed g) = Ok out ->
  exists res,
    out = join res
    /\ Forall (fun x => len x = 1) res
    /\ (forall i, (i + Z.to_nat (order m) < List.length res)%nat ->
                  window_ok m res i).
Proof.
  intros Hwf Hout. rewrite generate_unfold in Hout. cbv zeta in Hout.
  destruct (initial_context m seed _) as [[c|e] g1] eqn:Ec; [|discriminate].
  apply initial_context_length in Ec; [|exact Hwf].
  destruct (for_m _ _ _ g1) as [[[res ctx]|e] g2] eqn:Ew; [|discriminate].
  cbn [fst] in Hout. injection Hout as <-.
  destruct (list_of_str_units c) as [Hunits Hcount].
  assert (Hk : 1 <= order m).
  { unfold wf_model in Hwf. apply andb_true_iff in Hwf as [H _]. lia. }
  apply walk_windows in Ew; try assumption.
  - exists res. split; [reflexivity|exact Ew].
  - rewrite Hcount. unfold len in Ec. lia.
  - rewrite list_slice_last by (rewrite Hcount; unfold len in Ec; lia).
    replace (List.length (list_of_str c) - Z.to_nat (order m))%nat
      with 0%nat by (rewrite Hcount; unfold len in Ec; lia).
    rewrite skipn_O. now rewrite join_list_of_str.
  - intros i Hi. rewrite Hcount in Hi. unfold len in Ec. lia.
Qed.
End Windows.

(** A transition of the table, read in the joined string. *)
Lemma window_ok_recorded (m : MarkovChain) (res : list string) (i : Z) :
  wf_model m = true ->
  Forall (fun x => len x = 1) res ->
  0 <= i < len (join res) - order m ->
  window_ok m res (Z.to_nat i) ->
  exists ch n,
    str_index (join res) (i + order m) = Ok ch
    /\ recorded (transitions m)
         (str_slice (join res) (Some i) (Some (i + order m))) ch = Some n
    /\ 1 <= n.
Proof.
  intros Hwf Hunits Hi (inner & ch & Hget & Hnth & Hin).
  assert (Hk : 1 <= order m).
  { unfold wf_model in Hwf. apply andb_true_iff in Hwf as [H _]. lia. }
  set (out := join res) in *.
  pose proof (units_list_of_str_join res Hunits) as Hres. fold out in Hres.
  assert (Hslice : str_slice out (Some i) (Some (i + order m))
                   = join (firstn (Z.to_nat (order m))
                             (skipn (Z.to_nat i) res))).
  { rewrite str_slice_substring by lia.
    rewrite <- Hres at 1. rewrite <- list_of_str_substring.
    now rewrite join_list_of_str. }
  assert (Hch : str_index out (i + order m) = Ok ch).
  { rewrite <- Hres, nth_error_list_of_str in Hnth. unfold str_index.
    destruct (Z.ltb_spec (i + order m) 0); [lia|].
    destruct (Z.leb_spec 0 (i + order m)); [|lia].
    destruct (Z.ltb_spec (i + order m) (len out)); [|lia]. cbn [andb].
    replace (Z.to_nat (i + order m))
      with (Z.to_nat i + Z.to_nat (order m))%nat by lia.
    destruct (String.get _ out) as [a|]; [|discriminate].
    now injection Hnth as <-. }
  apply dict_get_in_keys in Hin. unfold dict_contains in Hin.
  destruct (dict_get ch inner) as [n|] eqn:En; [|discriminate].
  exists ch, n. split; [exact Hch|]. split.
  - unfold recorded. rewrite Hslice, Hget. exact En.
  - destruct (wf_counts_facts inner (wf_model_counts _ _ _ Hwf Hget))
      as (_ & _ & Hpos).
    rewrite Forall_forall in Hpos. apply Hpos.
    apply dict_get_In in En. unfold dict_values.
    change n with (snd (ch, n)). now apply in_map.
Qed.

Section Soundness.
Context {R : RandomSource}.

(** X6.  A string returned by [generate] on a well-formed model holds only
    transitions of the table: for every position [i] with a character after
    the [order] characters from [i], those [order] characters are a key and
    the character after them is recorded for that key with a count of at
    least 1. *)
Theorem generate_emits_recorded_transitions (m : MarkovChain) (length : Z)
  (seed : option string) (random_seed : option Z) (g : rng) (out : string)
  (Hwf : wf_model m = true)
  (Hout : fst (generate m length seed random_seed g) = Ok out) :
  forall i,
    0 <= i < len out - order m ->
    exists ch n,
      str_index out (i + order m) = Ok ch
      /\ recorded (transitions m)
           (str_slice out (Some i) (Some (i + order m))) ch = Some n
      /\ 1 <= n.
Proof.
  intros i Hi.
  destruct (generate_windows _ _ _ _ _ _ Hwf Hout) as (res & -> & Hunits & Hwin).
  apply window_ok_recorded; try assumption.
  apply Hwin. rewrite (len_join_units res Hunits) in Hi.
  assert (1 <= order m).
  { unfold wf_model in Hwf. apply andb_true_iff in Hwf as [H _]. lia. }
  lia.
Qed.

(** X7.  Text generated from a trained model is made of what the training
    texts hold: every run of [k + 1] characters in a string that [generate]
    returns occurs at least once in one of the texts the model was trained
    on. *)
Theorem generate_emits_trained_transitions (k : Z) (texts : list string)
  (m : MarkovChain) (length : Z) (seed : option string)
  (random_seed : option Z) (g : rng) (out : string)
  (Hk : 1 <= k)
  (Htrain : (m0 <- init k ;; train_all m0 texts) = Ok m)
  (Hout : fst (generate m length seed random_seed g) = Ok out) :
  forall i,
    0 <= i < len out - k ->
    exists ch,
      str_index out (i + k) = Ok ch
      /\ 1 <= occurrences_all k texts
                (str_slice out (Some i) (Some (i + k))) ch.
Proof.
  intros i Hi. unfold init in Htrain.
  destruct (Z.leb_spec k 0) as [|_]; [lia|]. cbn [rbind] in Htrain.
  destruct (train_all_spec texts {| order := k; transitions := [] |} Hk)
    as (m' & Hrun & Ho & Hkeep & Hcnt & _).
  rewrite Htrain in Hrun. injection Hrun as <-. cbn [order transitions] in *.
  assert (Hwf : wf_model m = true).
  { unfold wf_model. rewrite Ho. apply andb_true_iff. split; [lia|].
    now apply Hkeep. }
  destruct (generate_windows _ _ _ _ _ _ Hwf Hout) as (res & -> & Hunits & Hwin).
  destruct (window_ok_recorded m res i Hwf Hunits) as (ch & n & Hch & Hrec & Hn).
  - now rewrite Ho.
  - apply Hwin. rewrite (len_join_units res Hunits) in Hi. rewrite Ho. lia.
  - rewrite Ho in Hch, Hrec. exists ch. split; [exact Hch|].
    specialize (Hcnt (str_slice (join res) (Some i) (Some (i + k))) ch).
    unfold count_of in Hcnt. rewrite Hrec in Hcnt. cbn in Hcnt. lia.
Qed.
End Soundness.

Lemma generate_emits_recorded_transitions_witness :
  exists ch n,
    str_index "ababa" (2 + 1) = Ok ch
    /\ recorded [("a", [("b", 1)]); ("b", [("a", 1)])]
         (str_slice "ababa" (Some 2) (Some (2 + 1))) ch = Some n
    /\ 1 <= n.
Proof.
  apply (generate_emits_recorded_transitions (R := lcg)
           {| order := 1;
              transitions := [("a", [("b", 1)]); ("b", [("a", 1)])] |}
           5 (Some "a") (Some 0) 0 "ababa").
  - reflexivity.
  - vm_compute. reflexivity.
  - vm_compute. split; [discriminate|reflexivity].
Defined.

Lemma generate_emits_trained_transitions_witness :
  exists ch,
    str_index "ababa" (1 + 1) = Ok ch
    /\ 1 <= occurrences_all 1 ["aba"]
              (str_slice "ababa" (Some 1) (Some (1 + 1))) ch.
Proof.
  apply (generate_emits_trained_transitions (R := lcg) 1 ["aba"]
           {| order := 1;
              transitions := [("a", [("b", 1)]); ("b", [("a", 1)])] |}
           5 (Some "a") (Some 0) 0 "ababa").
  - lia.
  - reflexivity.
  - vm_compute. reflexivity.
  - vm_compute. split; [discriminate|reflexivity].
Defined.

Section Outcomes.
Context {R : RandomSource}.

(** With a table that is not empty the starting context is always found. *)
Lemma initial_context_runs (m : MarkovChain) (seed : option string) (g : rng) :
  transitions m <> [] ->
  exists c g1, initial_context m seed g = (Ok c, g1).
Proof.
  intros Hne. unfold initial_context.
  assert (Hkeys : dict_keys (transitions m) <> [])
    by (destruct (transitions m); [congruence|discriminate]).
  destruct (choice_nonempty _ g Hkeys) as (key & Hc & _).
  destruct seed as [s|]; [destruct (len s =? order m)|]; eauto.
  eexists _, _. reflexivity.
Qed.

(** On a well-formed table the walk can fail in two ways only: at a
    context that is no key, and at a context whose counts do not convert to
    a float. *)
Lemma walk_raises_key_error (m : MarkovChain) (xs : list Z) :
  wf_model m = true ->
  forall st g e g',
    for_m (walk_step m) xs st g = (Raise e, g') ->
    e = KeyError \/ (e = OverflowError /\ float_safe m = false).
Proof.
  intros Hwf. induction xs as [|x xs IH]; intros [res context] g e g' Hrun.
  - discriminate.
  - cbn [for_m] in Hrun. unfold mbind in Hrun.
    destruct (dict_get context (transitions m)) as [inner|] eqn:Hget.
    + rewrite (walk_step_found _ _ _ _ _ _ Hget) in Hrun.
      pose proof (wf_model_counts _ _ _ Hwf Hget) as Hin.
      destruct (float_safe_counts inner) eqn:Hsafe.
      * destruct (choices1_total inner g Hin Hsafe) as (ch & _ & Hch).
        rewrite Hch in Hrun. eapply IH. exact Hrun.
      * rewrite (choices1_unsafe inner g Hin Hsafe) in Hrun.
        injection Hrun as <- _. right. split; [reflexivity|].
        destruct (float_safe m) eqn:Hm; [|reflexivity].
        rewrite (float_safe_counts_of _ _ _ Hm Hget) in Hsafe. discriminate.
    + rewrite walk_step_dead_end in Hrun by exact Hget.
      injection Hrun as <- _. now left.
Qed.

(** X8.  On a well-formed model with a table that is not empty, [generate]
    has three outcomes only: it returns a string of exactly
    [max(length, order)] characters, it raises [KeyError] (a context met on
    the walk is not a key), or it raises [OverflowError], which needs a
    context whose counts sum to [float_max_int = 2^1024 - 2^970] or more,
    too much for [random.choices] to convert to a float.  It never returns a
    shorter string and never raises another exception. *)
Theorem generate_returns_or_key_error (m : MarkovChain) (length : Z)
  (seed : option string) (random_seed : option Z) (g : rng)
  (Hwf : wf_model m = true) (Hne : transitions m <> []) :
  match fst (generate m length seed random_seed g) with
  | Ok out => len out = Z.max length (order m)
  | Raise e => e = KeyError \/ (e = OverflowError /\ float_safe m = false)
  end.
Proof.
  destruct (fst (generate m length seed random_seed g)) as [out|e] eqn:E.
  - eapply generate_returns_max; eauto.
  - rewrite generate_unfold in E. cbv zeta in E.
    destruct (initial_context_runs m seed (snd (reseed random_seed g)) Hne)
      as (c & g1 & Hc).
    rewrite Hc in E.
    destruct (for_m _ _ _ g1) as [[st|e'] g2] eqn:Ew; [discriminate|].
    cbn [fst] in E. injection E as <-.
    eapply walk_raises_key_error; eauto.
Qed.
End Outcomes.

Lemma generate_returns_or_key_error_witness :
  match
    fst (generate (R := lcg)
           {| order := 1; transitions := [("a", [("b", 1)])] |}
           3 (Some "a") (Some 0) 0)
  with
  | Ok out => len out = Z.max 3 1
  | Raise e =>
      e = KeyError
      \/ (e = OverflowError
          /\ float_safe {| order := 1; transitions := [("a", [("b", 1)])] |}
             = false)
  end.
Proof.
  apply (generate_returns_or_key_error (R := lcg)
           {| order := 1; transitions := [("a", [("b", 1)])] |}
           3 (Some "a") (Some 0) 0).
  - reflexivity.
  - discriminate.
Defined.

(* ================================================================== *)
(** * Properties of the sibling copies *)
(* ================================================================== *)

(** ** [run_1768561810934]: stop at a dead end, sample with [randint] *)

Lemma pick_cumulative_in (inner : dict Z) :
  forall (rand_val cumulative_count : Z) (ch : string),
    Run1768561810934.pick_cumulative rand_val cumulative_count inner = Some ch ->
    In ch (dict_keys inner).
Proof.
  induction inner as [|[c n] inner IH]; intros r acc ch; [discriminate|].
  cbn [Run1768561810934.pick_cumulative dict_keys map fst].
  destruct (r <=? acc + n); [intros [= ->]; now left|].
  intros H. right. eapply IH. exact H.
Qed.

Section CumulativeCopy.
Context {R : RandomSource}.

(** One iteration on a well-formed table: no exception; the result is left
    as it is or gets one candidate more. *)
Lemma cumulative_walk_step_runs (m : MarkovChain) (res : list string)
  (context : string) (x : Z) (g : rng) :
  wf_model m = true ->
  exists r g',
    Run1768561810934.walk_step m (res, context) x g = (Ok r, g')
    /\ (fst (match r with inl st | inr st => st end) = res
        \/ exists ch,
             candidate m ch
             /\ fst (match r with inl st | inr st => st end)
                = (res ++ [ch])%list).
Proof.
  intros Hwf. unfold Run1768561810934.walk_step.
  destruct (dict_get context (transitions m)) as [[|kv inner]|] eqn:Hget;
    try (eexists _, _; split; [reflexivity|now left]).
  destruct (wf_counts_facts _ (wf_model_counts _ _ _ Hwf Hget))
    as (Hne & _ & Hpos).
  pose proof (sum_positive _ Hpos ltac:(discriminate)) as Hsum.
  unfold mbind, randint.
  destruct (Z.ltb_spec 0 (sum (dict_values (kv :: inner)) + 1 - 1)) as [_|]; [|lia].
  destruct (randbelow _ g) as [d g1].
  destruct (Run1768561810934.pick_cumulative _ 0 (kv :: inner)) as [nc|] eqn:Ep.
  - eexists _, _. split; [reflexivity|]. right. exists nc. split; [|reflexivity].
    exists context, (kv :: inner). split; [exact Hget|].
    eapply pick_cumulative_in. exact Ep.
  - eexists _, _. split; [reflexivity|now left].
Qed.

Lemma cumulative_walk_runs (m : MarkovChain) (xs : list Z) :
  wf_model m = true ->
  forall res context g,
    exists res' context' g' added,
      for_break (Run1768561810934.walk_step m) xs (res, context) g
      = (Ok (res', context'), g')
      /\ res' = (res ++ added)%list
      /\ (List.length added <= List.length xs)%nat
      /\ Forall (candidate m) added.
Proof.
  intros Hwf. induction xs as [|x xs IH]; intros res context g.
  - exists res, context, g, []. cbn. rewrite app_nil_r.
    repeat split; [lia|constructor].
  - cbn [for_break]. unfold mbind.
    destruct (cumulative_walk_step_runs m res context x g Hwf)
      as (r & g1 & Hstep & Hres).
    rewrite Hstep. destruct r as [[res1 ctx1]|[res1 ctx1]]; cbn [fst] in Hres.
    + destruct (IH res1 ctx1 g1) as (res' & context' & g' & added & Hrun & -> & Hlen & Hall).
      rewrite Hrun. destruct Hres as [->|(ch & Hch & ->)].
      * exists (res ++ added)%list, context', g', added.
        repeat split; [cbn [List.length]; lia|exact Hall].
      * exists ((res ++ [ch]) ++ added)%list, context', g', (ch :: added).
        rewrite <- app_assoc. repeat split; [cbn [List.length]; lia|].
        now constructor.
    + unfold mret. destruct Hres as [->|(ch & Hch & ->)].
      * exists res, ctx1, g1, []. rewrite app_nil_r. repeat split;
          [cbn [List.length]; lia|constructor].
      * exists (res ++ [ch])%list, ctx1, g1, [ch]. repeat split;
          [cbn [List.length]; lia|]. now constructor.
Qed.

(** X9.  The copy [run_1768561810934] truncates instead of failing: on a
    well-formed model with a table that is not empty its [generate] never
    raises, whatever the arguments, and returns a string of at least
    [order] and at most [max(length, order)] characters. *)
Theorem cumulative_generate_never_raises (m : MarkovChain) (length : Z)
  (seed : option string) (random_seed : option Z) (g : rng)
  (Hwf : wf_model m = true) (Hne : transitions m <> []) :
  exists out,
    fst (Run1768561810934.generate m length seed random_seed g) = Ok out
    /\ order m <= len out <= Z.max length (order m).
Proof.
  unfold Run1768561810934.generate, mbind.
  destruct (reseed random_seed g) as [[[]|e] g0] eqn:Er;
    [|destruct random_seed; discriminate].
  destruct (initial_context_runs m seed g0 Hne) as (c & g1 & Hc).
  rewrite Hc.
  pose proof (initial_context_length _ _ _ _ _ Hwf Hc) as Hlen.
  destruct (cumulative_walk_runs m (range (length - order m)) Hwf
              (list_of_str c) c g1)
    as (res' & context' & g' & added & Hrun & -> & Hadded & Hall).
  rewrite Hrun. unfold mret. cbn [fst].
  eexists. split; [reflexivity|].
  rewrite join_app, join_list_of_str.
  assert (Hextra : len (join added) = Z.of_nat (List.length added)).
  { apply len_join_units. eapply Forall_impl; [|exact Hall].
    intros ch. now apply candidate_unit. }
  rewrite length_range in Hadded.
  unfold len in *. rewrite length_append. lia.
Qed.

(** X10.  In the walk of [run_1768561810934], at a context that is a key of
    a well-formed table, the step draws [d = randbelow(total)] (through
    [randint(1, total)]) and appends the candidate at position [j], of count
    [n], exactly when [below <= d < below + n], where [below] is the sum of
    the counts listed before it: exactly [n] of the [total] values of the
    draw choose it. *)
Theorem cumulative_walk_samples_by_count (m : MarkovChain)
  (res : list string) (context : string) (x : Z) (g : rng) (inner : dict Z)
  (j : nat) (ch : string) (n : Z)
  (Hwf : wf_model m = true)
  (Hctx : dict_get context (transitions m) = Some inner)
  (Hj : nth_error inner j = Some (ch, n)) :
  let total := sum (dict_values inner) in
  let below := prefix_sum (dict_values inner) j in
  let draw := randbelow total g in
  0 <= fst draw < total
  /\ (Run1768561810934.walk_step m (res, context) x g
      = (Ok (inl ((res ++ [ch])%list,
                  str_slice context (Some 1) None ++ ch)), snd draw)
      <-> below <= fst draw < below + n).
Proof.
  intros total below draw.
  destruct (wf_counts_facts _ (wf_model_counts _ _ _ Hwf Hctx))
    as (Hne & Hnd & Hpos).
  assert (Hsum : 1 <= total).
  { apply sum_positive; [exact Hpos|].
    unfold dict_values. destruct inner; [congruence|discriminate]. }
  pose proof (randbelow_range total g ltac:(lia)) as Hdraw. fold draw in Hdraw.
  split; [exact Hdraw|].
  unfold Run1768561810934.walk_step. rewrite Hctx.
  destruct inner as [|kv inner']; [congruence|].
  set (inner := kv :: inner') in *.
  unfold mbind, randint. fold total.
  replace (total + 1 - 1) with total by lia.
  destruct (Z.ltb_spec 0 total) as [_|]; [|lia].
  fold draw. destruct draw as [d g1]. cbn [fst snd] in *.
  pose proof (pick_cumulative_by_count inner j ch n (1 + d) 0 Hnd Hpos Hj
                ltac:(lia)) as Hpick.
  fold below in Hpick.
  destruct (Run1768561810934.pick_cumulative (1 + d) 0 inner) as [nc|] eqn:Ep;
    unfold mret.
  - split.
    + intros [= Hres _]. apply app_inj_tail in Hres as [_ ->].
      assert (H : below < 1 + d /\ 1 + d <= below + n)
        by (apply Hpick; reflexivity).
      lia.
    + intros Hd.
      assert (H : Some nc = Some ch) by (apply Hpick; lia).
      now injection H as ->.
  - split.
    + intros [= Hres _]. exfalso.
      apply (f_equal (@List.length string)) in Hres.
      rewrite length_app in Hres. cbn in Hres. lia.
    + intros Hd. assert (H : None = Some ch) by (apply Hpick; lia).
      discriminate.
Qed.
End CumulativeCopy.

Lemma cumulative_generate_never_raises_witness :
  exists out,
    fst (Run1768561810934.generate (R := lcg)
           {| order := 1; transitions := [("a", [("b", 1)])] |}
           3 (Some "a") (Some 0) 0) = Ok out
    /\ 1 <= len out <= Z.max 3 1.
Proof.
  apply (cumulative_generate_never_raises (R := lcg)
           {| order := 1; transitions := [("a", [("b", 1)])] |}
           3 (Some "a") (Some 0) 0).
  - reflexivity.
  - discriminate.
Defined.

Lemma cumulative_walk_samples_by_count_witness :
  0 <= fst (randbelow (RandomSource := lcg) 4 5) < 4
  /\ (Run1768561810934.walk_step (R := lcg)
        {| order := 1; transitions := [("a", [("b", 3); ("c", 1)])] |}
        (["a"], "a") 0 5
      = (Ok (inl (["a"; "b"], "b")), snd (randbelow (RandomSource := lcg) 4 5))
      <-> 0 <= fst (randbelow (RandomSource := lcg) 4 5) < 0 + 3).
Proof.
  apply (cumulative_walk_samples_by_count (R := lcg)
           {| order := 1; transitions := [("a", [("b", 3); ("c", 1)])] |}
           ["a"] "a" 0 5 [("b", 3); ("c", 1)] 0 "b" 3
           eq_refl eq_refl eq_refl).
Defined.

(** ** The walk that stops at a dead end *)

Lemma pick_cumulative_none (inner : dict Z) :
  forall rand_val cumulative_count : Z,
    cumulative_count < rand_val ->
    Run1768561810934.pick_cumulative rand_val cumulative_count inner = None ->
    cumulative_count + sum (dict_values inner) < rand_val.
Proof.
  induction inner as [|[c n] inner IH]; intros r acc Hacc.
  - intros _. unfold dict_values. cbn [map]. rewrite sum_nil. lia.
  - cbn [Run1768561810934.pick_cumulative].
    destruct (Z.leb_spec r (acc + n)) as [|Hgt]; [discriminate|].
    intros H. apply IH in H; [|exact Hgt].
    unfold dict_values in *. cbn [map snd]. rewrite sum_cons. lia.
Qed.

(** The last [k] characters of a string made of single characters. *)
Lemma str_slice_last (res : list string) (k : Z) :
  Forall (fun x => len x = 1) res ->
  1 <= k <= Z.of_nat (List.length res) ->
  str_slice (join res) (Some (- k)) None = join (list_slice_from res (- k)).
Proof.
  intros Hunits Hk.
  pose proof (len_join_units res Hunits) as Hlen.
  pose proof (units_list_of_str_join res Hunits) as Hres.
  rewrite list_slice_last by exact Hk.
  unfold str_slice, slice_bound. rewrite Hlen.
  destruct (Z.ltb_spec (- k) 0) as [_|]; [|lia].
  rewrite <- (join_list_of_str (substring _ _ _)).
  rewrite list_of_str_substring, Hres. f_equal.
  replace (Z.to_nat (Z.max 0 (Z.of_nat (List.length res) + - k)))
    with (List.length res - Z.to_nat k)%nat by lia.
  apply firstn_all2. rewrite length_skipn. lia.
Qed.

(** A window of [k] characters of such a string. *)
Lemma str_slice_window (res : list string) (i k : Z) :
  Forall (fun x => len x = 1) res ->
  0 <= i -> 0 <= k -> i + k <= Z.of_nat (List.length res) ->
  str_slice (join res) (Some i) (Some (i + k))
  = join (firstn (Z.to_nat k) (skipn (Z.to_nat i) res)).
Proof.
  intros Hunits Hi Hk Hlen.
  pose proof (len_join_units res Hunits) as Hl.
  pose proof (units_list_of_str_join res Hunits) as Hres.
  rewrite str_slice_substring by lia.
  rewrite <- (join_list_of_str (substring _ _ _)).
  now rewrite list_of_str_substring, Hres.
Qed.

(** Appending a candidate of the last window keeps every window inside the
    table. *)
Lemma window_ok_snoc (m : MarkovChain) (res : list string) (inner : dict Z)
  (ch : string) :
  1 <= order m <= Z.of_nat (List.length res) ->
  dict_get (join (list_slice_from res (- order m))) (transitions m)
  = Some inner ->
  In ch (dict_keys inner) ->
  (forall i, (i + Z.to_nat (order m) < List.length res)%nat ->
             window_ok m res i) ->
  forall i, (i + Z.to_nat (order m) < List.length (res ++ [ch]))%nat ->
            window_ok m (res ++ [ch])%list i.
Proof.
  intros Hk Hget Hin Hwin i Hi.
  rewrite length_app in Hi. cbn [List.length] in Hi.
  unfold window_ok. cbv zeta.
  set (k := Z.to_nat (order m)) in *.
  rewrite firstn_skipn_snoc by lia.
  destruct (Nat.eq_dec (i + k) (List.length res)) as [Hlast|Hold].
  - exists inner, ch. split; [|split; [|exact Hin]].
    + rewrite firstn_all2 by (rewrite length_skipn; lia).
      rewrite <- Hget. f_equal.
      rewrite list_slice_last by lia. f_equal. f_equal. lia.
    + rewrite nth_error_app2 by lia.
      replace (i + k - List.length res)%nat with 0%nat by lia.
      reflexivity.
  - destruct (Hwin i ltac:(lia)) as (inner0 & ch0 & H1 & H2 & H3).
    exists inner0, ch0. split; [exact H1|]. split; [|exact H3].
    rewrite nth_error_app1 by lia. exact H2.
Qed.

Section DeadEnd.
Context {R : RandomSource}.

(** One iteration of [run_1768561810934] on a well-formed table: at a
    context that is no key the loop is left with the result as it is; at a
    key one of its candidates is appended and the context slides. *)
Lemma cumulative_walk_step_cases (m : MarkovChain) (res : list string)
  (context : string) (x : Z) (g : rng) :
  wf_model m = true ->
  (dict_get context (transitions m) = None
   /\ Run1768561810934.walk_step m (res, context) x g
      = (Ok (inr (res, context)), g))
  \/ (exists inner ch g',
        dict_get context (transitions m) = Some inner
        /\ In ch (dict_keys inner)
        /\ Run1768561810934.walk_step m (res, context) x g
           = (Ok (inl ((res ++ [ch])%list,
                       str_slice context (Some 1) None ++ ch)), g')).
Proof.
  intros Hwf. unfold Run1768561810934.walk_step.
  destruct (dict_get context (transitions m)) as [inner|] eqn:Hget;
    [|left; split; reflexivity].
  right.
  destruct (wf_counts_facts _ (wf_model_counts _ _ _ Hwf Hget))
    as (Hne & _ & Hpos).
  destruct inner as [|kv inner']; [congruence|].
  set (inner := kv :: inner') in *.
  pose proof (sum_positive _ Hpos ltac:(discriminate)) as Hsum.
  unfold mbind, randint.
  replace (sum (dict_values inner) + 1 - 1) with (sum (dict_values inner))
    by lia.
  destruct (Z.ltb_spec 0 (sum (dict_values inner))) as [_|]; [|lia].
  pose proof (randbelow_range (sum (dict_values inner)) g ltac:(lia)) as Hd.
  destruct (randbelow _ g) as [d g1]. cbn [fst] in Hd.
  destruct (Run1768561810934.pick_cumulative (1 + d) 0 inner) as [nc|] eqn:Ep.
  - exists inner, nc, g1. split; [reflexivity|].
    split; [eapply pick_cumulative_in; exact Ep|reflexivity].
  - apply pick_cumulative_none in Ep; lia.
Qed.

(** The loop of [run_1768561810934] on a well-formed table: it does not
    raise, appends at most one character per iteration, each after a window
    that is a key, and where it appends fewer it has stopped at a window
    that is no key. *)
Lemma cumulative_walk_truncates (m : MarkovChain) (xs : list Z) :
  wf_model m = true ->
  forall res context g,
    Forall (fun x => len x = 1) res ->
    order m <= Z.of_nat (List.length res) ->
    context = join (list_slice_from res (- order m)) ->
    (forall i, (i + Z.to_nat (order m) < List.length res)%nat ->
               window_ok m res i) ->
    exists res' g',
      for_break (Run1768561810934.walk_step m) xs (res, context) g
      = (Ok (res', join (list_slice_from res' (- order m))), g')
      /\ Forall (fun x => len x = 1) res'
      /\ (List.length res <= List.length res'
          <= List.length res + List.length xs)%nat
      /\ (forall i, (i + Z.to_nat (order m) < List.length res')%nat ->
                    window_ok m res' i)
      /\ ((List.length res' < List.length res + List.length xs)%nat ->
          dict_get (join (list_slice_from res' (- order m))) (transitions m)
          = None).
Proof.
  intros Hwf.
  assert (Hk : 1 <= order m).
  { unfold wf_model in Hwf. apply andb_true_iff in Hwf as [H _]. lia. }
  induction xs as [|x xs IH]; intros res context g Hunits Hlen Hctx Hwin.
  - exists res, g. cbn [for_break]. unfold mret. rewrite <- Hctx.
    split; [reflexivity|]. split; [exact Hunits|].
    cbn [List.length]. split; [lia|]. split; [exact Hwin|]. lia.
  - cbn [for_break]. unfold mbind.
    destruct (cumulative_walk_step_cases m res context x g Hwf)
      as [[Hget Hstep]|(inner & ch & g1 & Hget & Hin & Hstep)];
      rewrite Hstep.
    + exists res, g. unfold mret. rewrite <- Hctx.
      split; [reflexivity|]. split; [exact Hunits|].
      cbn [List.length]. split; [lia|]. split; [exact Hwin|].
      intros _. exact Hget.
    + assert (Hch : len ch = 1).
      { apply (candidate_unit m); [exact Hwf|]. now exists context, inner. }
      destruct (IH (res ++ [ch])%list
                  (str_slice context (Some 1) None ++ ch) g1)
        as (res' & g' & Hrun & Hunits' & Hlen' & Hwin' & Hstop).
      * apply Forall_app. split; [exact Hunits|]. now repeat constructor.
      * rewrite length_app. cbn [List.length]. lia.
      * rewrite window_slides by (try lia; assumption). now rewrite Hctx.
      * apply (window_ok_snoc m res inner ch); try assumption; try lia.
        now rewrite <- Hctx.
      * rewrite length_app in Hlen', Hstop. cbn [List.length] in *.
        exists res', g'. split; [exact Hrun|]. split; [exact Hunits'|].
        split; [lia|]. split; [exact Hwin'|].
        intros H. apply Hstop. lia.
Qed.

(** C6, as amended, on the copy [run_1768561810934], which tests the
    presence of the context before it reads the table.  On a well-formed
    model with a table that is not empty [generate] does not raise, whatever
    the arguments, and returns a string [out] of at least [order] and at
    most [max(length, order)] characters.  The walk goes on from contexts
    that are keys only: every window of [order] characters of [out] that has
    a character after it is a key of the table.  And [out] is shorter than
    [max(length, order)] only by truncation at a dead end: it is then
    shorter than [length] and its last [order] characters, the context the
    walk stopped at, are no key of the table; nothing was appended after
    them. *)
Theorem generate_output_length (m : MarkovChain) (length : Z)
  (seed : option string) (random_seed : option Z) (g : rng)
  (Hwf : wf_model m = true) (Hne : transitions m <> []) :
  exists out,
    fst (Run1768561810934.generate m length seed random_seed g) = Ok out
    /\ order m <= len out <= Z.max length (order m)
    /\ (forall p,
          0 <= p < len out - order m ->
          dict_contains (str_slice out (Some p) (Some (p + order m)))
            (transitions m) = true)
    /\ (len out < Z.max length (order m) ->
        len out < length
        /\ dict_contains (str_slice out (Some (- order m)) None)
             (transitions m) = false).
Proof.
  assert (Hk : 1 <= order m).
  { unfold wf_model in Hwf. apply andb_true_iff in Hwf as [H _]. lia. }
  unfold Run1768561810934.generate, mbind.
  destruct (reseed random_seed g) as [[[]|e] g0] eqn:Er;
    [|destruct random_seed; discriminate].
  destruct (initial_context_runs m seed g0 Hne) as (c & g1 & Hc).
  rewrite Hc.
  pose proof (initial_context_length _ _ _ _ _ Hwf Hc) as Hlen.
  destruct (list_of_str_units c) as [Hunits Hcount].
  unfold len in Hlen.
  destruct (cumulative_walk_truncates m (range (length - order m)) Hwf
              (list_of_str c) c g1)
    as (res' & g' & Hrun & Hunits' & Hbounds & Hwin & Hstop).
  - exact Hunits.
  - lia.
  - rewrite list_slice_last by lia.
    replace (List.length (list_of_str c) - Z.to_nat (order m))%nat
      with 0%nat by lia.
    rewrite skipn_O. now rewrite join_list_of_str.
  - intros i Hi. lia.
  - rewrite Hrun. unfold mret. cbn [fst].
    exists (join res'). split; [reflexivity|].
    rewrite length_range in Hbounds, Hstop.
    pose proof (len_join_units res' Hunits') as Hout.
    split; [lia|]. split.
    + intros p Hp.
      destruct (window_ok_recorded m res' p Hwf Hunits' Hp)
        as (ch & n & _ & Hrec & _).
      { apply Hwin. lia. }
      unfold recorded in Hrec. unfold dict_contains. clear Hstop.
      destruct (dict_get (str_slice _ _ _) (transitions m));
        [reflexivity|discriminate].
    + intros Hshort. split; [lia|].
      rewrite str_slice_last by (try assumption; lia).
      unfold dict_contains. rewrite Hstop by lia. reflexivity.
Qed.
End DeadEnd.

Lemma generate_output_length_witness :
  exists out,
    fst (Run1768561810934.generate (R := lcg)
           {| order := 1; transitions := [("a", [("b", 1)])] |}
           3 (Some "a") (Some 0) 0) = Ok out
    /\ 1 <= len out <= Z.max 3 1
    /\ (forall p,
          0 <= p < len out - 1 ->
          dict_contains (str_slice out (Some p) (Some (p + 1)))
            [("a", [("b", 1)])] = true)
    /\ (len out < Z.max 3 1 ->
        len out < 3
        /\ dict_contains (str_slice out (Some (- (1))) None)
             [("a", [("b", 1)])] = false).
Proof.
  apply (generate_output_length (R := lcg)
           {| order := 1; transitions := [("a", [("b", 1)])] |}
           3 (Some "a") (Some 0) 0).
  - reflexivity.
  - discriminate.
Defined.

(** ** Loops that stop at a dead end *)

Section BreakingWalks.
Context {R : RandomSource}.

(** A loop whose body never raises and appends at most one candidate per
    iteration returns its start followed by at most one candidate per
    iteration. *)
Lemma for_break_appends (m : MarkovChain)
  (body : list string * string -> Z
          -> M ((list string * string) + (list string * string))) :
  (forall res context x g,
     exists r g',
       body (res, context) x g = (Ok r, g')
       /\ (fst (match r with inl st | inr st => st end) = res
           \/ exists ch,
                candidate m ch
                /\ fst (match r with inl st | inr st => st end)
                   = (res ++ [ch])%list)) ->
  forall xs res context g,
    exists res' context' g' added,
      for_break body xs (res, context) g = (Ok (res', context'), g')
      /\ res' = (res ++ added)%list
      /\ (List.length added <= List.length xs)%nat
      /\ Forall (candidate m) added.
Proof.
  intros Hbody. induction xs as [|x xs IH]; intros res context g.
  - exists res, context, g, []. cbn. rewrite app_nil_r.
    repeat split; [lia|constructor].
  - cbn [for_break]. unfold mbind.
    destruct (Hbody res context x g) as (r & g1 & Hstep & Hres).
    rewrite Hstep. destruct r as [[res1 ctx1]|[res1 ctx1]]; cbn [fst] in Hres.
    + destruct (IH res1 ctx1 g1)
        as (res' & context' & g' & added & Hrun & -> & Hlen & Hall).
      rewrite Hrun. destruct Hres as [->|(ch & Hch & ->)].
      * exists (res ++ added)%list, context', g', added.
        repeat split; [cbn [List.length]; lia|exact Hall].
      * exists ((res ++ [ch]) ++ added)%list, context', g', (ch :: added).
        rewrite <- app_assoc. repeat split; [cbn [List.length]; lia|].
        now constructor.
    + unfold mret. destruct Hres as [->|(ch & Hch & ->)].
      * exists res, ctx1, g1, []. rewrite app_nil_r. repeat split;
          [cbn [List.length]; lia|constructor].
      * exists (res ++ [ch])%list, ctx1, g1, [ch]. repeat split;
          [cbn [List.length]; lia|]. now constructor.
Qed.

Lemma len_join_candidates (m : MarkovChain) (added : list string) :
  wf_model m = true -> Forall (candidate m) added ->
  len (join added) = Z.of_nat (List.length added).
Proof.
  intros Hwf Hall. apply len_join_units. eapply Forall_impl; [|exact Hall].
  intros ch. now apply candidate_unit.
Qed.

(** ** [run_1768562193727]: the seed must be a key *)

Lemma membership_walk_step_runs (m : MarkovChain) :
  wf_model m = true -> float_safe m = true ->
  forall res context x g,
    exists r g',
      Run1768562193727.walk_step m (res, context) x g = (Ok r, g')
      /\ (fst (match r with inl st | inr st => st end) = res
          \/ exists ch,
               candidate m ch
               /\ fst (match r with inl st | inr st => st end)
                  = (res ++ [ch])%list).
Proof.
  intros Hwf Hsafe res context x g. unfold Run1768562193727.walk_step.
  destruct (dict_get context (transitions m)) as [[|kv inner]|] eqn:Hget;
    try (eexists _, _; split; [reflexivity|now left]).
  destruct (choices1_total _ g (wf_model_counts _ _ _ Hwf Hget)
              (float_safe_counts_of _ _ _ Hsafe Hget))
    as (ch & Hin & Hch).
  unfold mbind. rewrite Hch. unfold mret.
  eexists _, _. split; [reflexivity|]. right. exists ch. split; [|reflexivity].
  now exists context, (kv :: inner).
Qed.

Lemma membership_initial_context_runs (m : MarkovChain)
  (seed : option string) (g : rng) :
  wf_model m = true -> transitions m <> [] ->
  exists c g1,
    Run1768562193727.initial_context m seed g = (Ok c, g1)
    /\ dict_contains c (transitions m) = true
    /\ (forall s, seed = Some s -> dict_contains s (transitions m) = true ->
                  c = s /\ g1 = g).
Proof.
  intros Hwf Hne. unfold Run1768562193727.initial_context.
  assert (Hkeys : dict_keys (transitions m) <> [])
    by (destruct (transitions m); [congruence|discriminate]).
  destruct (choice_nonempty _ g Hkeys) as (key & Hc & Hnth).
  apply nth_error_In in Hnth. apply dict_get_in_keys in Hnth.
  destruct seed as [s|].
  - destruct (dict_contains s (transitions m)) eqn:Es.
    + pose proof (key_length m s Hwf (proj1 (dict_get_in_keys _ _) Es)) as Hlen.
      destruct (Z.ltb_spec (len s) (order m)) as [|_]; [lia|]. cbn [orb negb].
      exists s, g. rewrite <- Hlen.
      rewrite <- (append_empty_r s) at 1. rewrite str_slice_prefix.
      split; [reflexivity|]. split; [exact Es|].
      intros s' [= <-] _. split; reflexivity.
    + rewrite orb_true_r. eexists key, _. split; [exact Hc|].
      split; [exact Hnth|]. intros s' [= <-] H. congruence.
  - eexists key, _. split; [exact Hc|]. split; [exact Hnth|]. discriminate.
Qed.

(** X11.  In the copy [run_1768562193727], on a well-formed model with a
    table that is not empty and in which the counts of every context sum to
    less than [float_max_int = 2^1024 - 2^970] (so that [random.choices] can
    convert the sum to a float), [generate] never raises, whatever the
    arguments: it returns a string of at least [order] and at most
    [max(length, order)] characters, and a seed that is a key of the table
    is its first [order] characters. *)
Theorem membership_generate_never_raises (m : MarkovChain) (length : Z)
  (seed : option string) (random_seed : option Z) (g : rng)
  (Hwf : wf_model m = true) (Hsafe : float_safe m = true)
  (Hne : transitions m <> []) :
  exists out,
    fst (Run1768562193727.generate m length seed random_seed g) = Ok out
    /\ order m <= len out <= Z.max length (order m)
    /\ (forall s, seed = Some s -> dict_contains s (transitions m) = true ->
                  str_slice out None (Some (order m)) = s).
Proof.
  unfold Run1768562193727.generate, mbind.
  destruct (reseed random_seed g) as [[[]|e] g0] eqn:Er;
    [|destruct random_seed; discriminate].
  destruct (membership_initial_context_runs m seed g0 Hwf Hne)
    as (c & g1 & Hc & Hkey & Hseed).
  rewrite Hc.
  pose proof (key_length m c Hwf (proj1 (dict_get_in_keys _ _) Hkey)) as Hlen.
  destruct (for_break_appends m (Run1768562193727.walk_step m)
              (membership_walk_step_runs m Hwf Hsafe)
              (range (length - order m)) (list_of_str c) c g1)
    as (res' & context' & g' & added & Hrun & -> & Hadded & Hall).
  rewrite Hrun. unfold mret. cbn [fst].
  eexists. split; [reflexivity|].
  rewrite join_app, join_list_of_str.
  pose proof (len_join_candidates m added Hwf Hall) as Hextra.
  rewrite length_range in Hadded. split.
  - unfold len in *. rewrite length_append. lia.
  - intros s Hs Hin. destruct (Hseed s Hs Hin) as [-> _].
    rewrite <- Hlen. apply str_slice_prefix.
Qed.
End BreakingWalks.

Lemma membership_generate_never_raises_witness :
  exists out,
    fst (Run1768562193727.generate (R := lcg)
           {| order := 1; transitions := [("a", [("b", 1)])] |}
           3 (Some "a") (Some 0) 0) = Ok out
    /\ 1 <= len out <= Z.max 3 1
    /\ (forall s, Some "a" = Some s ->
                  dict_contains s [("a", [("b", 1)])] = true ->
                  str_slice out None (Some 1) = s).
Proof.
  apply (membership_generate_never_raises (R := lcg)
           {| order := 1; transitions := [("a", [("b", 1)])] |}
           3 (Some "a") (Some 0) 0).
  - reflexivity.
  - vm_compute. reflexivity.
  - discriminate.
Defined.

Lemma generate_untrained_membership_copy_witness :
  fst (Run1768562193727.generate (R := lcg)
         {| order := 1; transitions := [] |} 1 (Some "a") None 0)
  = Raise IndexError.
Proof.
  apply (generate_untrained_membership_copy (R := lcg)
           {| order := 1; transitions := [] |} 1 (Some "a") None 0).
  reflexivity.
Defined.

(** ** [batch_1770640212304]: sampled characters only *)

Section SampledOnlyCopy.
Context {R : RandomSource}.

Lemma sampled_walk_step_runs (m : MarkovChain) :
  wf_model m = true -> float_safe m = true ->
  forall text context x g,
    exists r g',
      Batch1770640212304_01.walk_step m (text, context) x g = (Ok r, g')
      /\ (fst (match r with inl st | inr st => st end) = text
          \/ exists ch,
               candidate m ch
               /\ fst (match r with inl st | inr st => st end)
                  = (text ++ [ch])%list).
Proof.
  intros Hwf Hsafe text context x g.
  unfold Batch1770640212304_01.walk_step.
  destruct (dict_get context (transitions m)) as [inner|] eqn:Hget;
    [|eexists _, _; split; [reflexivity|now left]].
  destruct (choices1_total _ g (wf_model_counts _ _ _ Hwf Hget)
              (float_safe_counts_of _ _ _ Hsafe Hget))
    as (ch & Hin & Hch).
  unfold mbind. rewrite Hch. unfold mret.
  eexists _, _. split; [reflexivity|]. right. exists ch. split; [|reflexivity].
  now exists context, inner.
Qed.

(** X13.  The [generate] of [batch_1770640212304] never returns more than
    was asked for: on a well-formed model in which the counts of every
    context sum to less than [float_max_int = 2^1024 - 2^970] (so that
    [random.choices] can convert the sum to a float), when the table is not
    empty or a non-empty seed is given, it does not raise and returns at
    most [max(0, length)] characters (the seed is not part of the
    output). *)
Theorem sampled_generate_at_most_length (m : MarkovChain) (length : Z)
  (seed : option string) (random_seed : option Z) (g : rng)
  (Hwf : wf_model m = true) (Hsafe : float_safe m = true)
  (Hstart : transitions m <> []
            \/ exists a s, seed = Some (String a s)) :
  exists out,
    fst (Batch1770640212304_01.generate m length seed random_seed g) = Ok out
    /\ len out <= Z.max 0 length.
Proof.
  unfold Batch1770640212304_01.generate, mbind.
  destruct (Batch1770640212304_01.reseed m seed random_seed g)
    as [[[]|e] g0] eqn:Er;
    [|destruct random_seed, seed; discriminate].
  assert (Hctx : exists c g1,
            Batch1770640212304_01.initial_context m seed g0 = (Ok c, g1)).
  { unfold Batch1770640212304_01.initial_context.
    destruct seed as [[|a s]|]; try (eexists _, _; reflexivity);
      (destruct Hstart as [Hne|(a' & s' & Hs)]; [|discriminate]);
      (assert (Hkeys : dict_keys (transitions m) <> [])
         by (destruct (transitions m); [congruence|discriminate]));
      destruct (choice_nonempty _ g0 Hkeys) as (key & Hc & _); eauto. }
  destruct Hctx as (c & g1 & Hc). rewrite Hc.
  destruct (for_break_appends m (Batch1770640212304_01.walk_step m)
              (sampled_walk_step_runs m Hwf Hsafe) (range length) [] c g1)
    as (res' & context' & g' & added & Hrun & -> & Hadded & Hall).
  rewrite Hrun. unfold mret. cbn [fst app].
  eexists. split; [reflexivity|].
  rewrite (len_join_candidates m added Hwf Hall).
  rewrite length_range in Hadded. lia.
Qed.
End SampledOnlyCopy.

Lemma sampled_generate_at_most_length_witness :
  exists out,
    fst (Batch1770640212304_01.generate (R := lcg)
           {| order := 2; transitions := [("ab", [("c", 1)])] |}
           1 (Some "ab") (Some 0) 0) = Ok out
    /\ len out <= Z.max 0 1.
Proof.
  apply (sampled_generate_at_most_length (R := lcg)
           {| order := 2; transitions := [("ab", [("c", 1)])] |}
           1 (Some "ab") (Some 0) 0).
  - reflexivity.
  - vm_compute. reflexivity.
  - left. discriminate.
Defined.

(** ** [release_gate_after_schema_first_177179]: the seed is checked first *)

Section OtherCopies.
Context {R : RandomSource}.

(** X14.  The [generate] of [release_gate_after_schema_first_177179] and the
    embedded one differ only on a seed whose length is not [order]: without
    a seed, or with a seed of that length, they return the same outcome and
    leave the generator in the same state; on a seed of another length the
    copy raises [ValueError] and leaves the generator untouched, even when
    a [random_seed] is given. *)
Theorem schema_first_agrees_or_refuses (m : MarkovChain) (length : Z)
  (seed : option string) (random_seed : option Z) (g : rng) :
  ((forall s, seed = Some s -> len s = order m) ->
   SchemaFirst177179_03.generate m length seed random_seed g
   = generate m length seed random_seed g)
  /\ (forall s, seed = Some s -> len s <> order m ->
      SchemaFirst177179_03.generate m length seed random_seed g
      = (Raise ValueError, g)).
Proof.
  split.
  - intros Hseed.
    unfold SchemaFirst177179_03.generate, generate, mbind.
    unfold SchemaFirst177179_03.check_seed,
      SchemaFirst177179_03.initial_context, initial_context.
    destruct seed as [s|]; [|reflexivity].
    rewrite (Hseed s eq_refl), Z.eqb_refl. reflexivity.
  - intros s -> Hs. now apply schema_first_refuses_seed.
Qed.

(** ** [batch_1770643297744/..._run_03]: uniform sampling *)

(** X15.  The walk of [batch_1770643297744] run 03 chooses among the
    candidates of a context without reading their counts: at a context that
    is a key of a well-formed table it draws [d = randbelow(n)] for the [n]
    candidates and appends the candidate at position [j] exactly when
    [d = j], one value of the draw per candidate. *)
Theorem uniform_walk_samples_uniformly (m : MarkovChain) (res : list string)
  (context : string) (x : Z) (g : rng) (inner : dict Z) (j : nat)
  (ch : string) (n : Z)
  (Hwf : wf_model m = true)
  (Hctx : dict_get context (transitions m) = Some inner)
  (Hj : nth_error inner j = Some (ch, n)) :
  let draw := randbelow (Z.of_nat (List.length inner)) g in
  0 <= fst draw < Z.of_nat (List.length inner)
  /\ (Batch1770643297744_03.walk_step m (res, context) x g
      = (Ok (inl ((res ++ [ch])%list,
                  join (list_slice_from (res ++ [ch])%list (- order m)))),
         snd draw)
      <-> fst draw = Z.of_nat j).
Proof.
  intros draw.
  destruct (wf_counts_facts _ (wf_model_counts _ _ _ Hwf Hctx))
    as (Hne & Hnd & _).
  assert (Hjlt : (j < List.length inner)%nat)
    by (apply nth_error_Some; congruence).
  pose proof (randbelow_range (Z.of_nat (List.length inner)) g ltac:(lia))
    as Hdraw. fold draw in Hdraw.
  split; [exact Hdraw|].
  assert (Hks : nth_error (dict_keys inner) j = Some ch)
    by (unfold dict_keys; now rewrite nth_error_map, Hj).
  unfold Batch1770643297744_03.walk_step. rewrite Hctx.
  destruct inner as [|kv inner']; [congruence|].
  set (inner := kv :: inner') in *.
  unfold mbind, choice.
  assert (Hlen : List.length (dict_keys inner) = List.length inner)
    by (unfold dict_keys; apply length_map).
  change (dict_keys inner) with (fst kv :: dict_keys inner') at 1.
  cbv iota. change (fst kv :: dict_keys inner') with (dict_keys inner).
  rewrite Hlen. fold draw. destruct draw as [d g1]. cbn [fst snd] in *.
  destruct (nth_error (dict_keys inner) (Z.to_nat d)) as [a|] eqn:Ea.
  - unfold mret. split.
    + intros [= Hres]. apply app_inj_tail in Hres as [_ ->].
      rewrite NoDup_nth_error in Hnd.
      assert (Z.to_nat d = j); [|lia].
      apply Hnd; [rewrite Hlen; lia|congruence].
    + intros Hd. replace (Z.to_nat d) with j in Ea by lia.
      assert (a = ch) by congruence. subst a. reflexivity.
  - apply nth_error_None in Ea. lia.
Qed.
End OtherCopies.

Lemma schema_first_agrees_or_refuses_witness :
  SchemaFirst177179_03.generate (R := lcg)
    {| order := 1; transitions := [("a", [("b", 1)]); ("b", [("a", 1)])] |}
    4 (Some "b") (Some 3) 0
  = generate (R := lcg)
      {| order := 1; transitions := [("a", [("b", 1)]); ("b", [("a", 1)])] |}
      4 (Some "b") (Some 3) 0
  /\ SchemaFirst177179_03.generate (R := lcg)
       {| order := 1; transitions := [("a", [("b", 1)]); ("b", [("a", 1)])] |}
       4 (Some "ba") (Some 3) 0
     = (Raise ValueError, 0).
Proof.
  split.
  - apply (proj1 (schema_first_agrees_or_refuses (R := lcg)
                    {| order := 1;
                       transitions := [("a", [("b", 1)]); ("b", [("a", 1)])] |}
                    4 (Some "b") (Some 3) 0)).
    intros s [= <-]. reflexivity.
  - apply (proj2 (schema_first_agrees_or_refuses (R := lcg)
                    {| order := 1;
                       transitions := [("a", [("b", 1)]); ("b", [("a", 1)])] |}
                    4 (Some "ba") (Some 3) 0) "ba").
    + reflexivity.
    + vm_compute. discriminate.
Defined.

Lemma uniform_walk_samples_uniformly_witness :
  0 <= fst (randbelow (RandomSource := lcg) 2 5) < 2
  /\ (Batch1770643297744_03.walk_step (R := lcg)
        {| order := 1; transitions := [("a", [("b", 3); ("c", 1)])] |}
        (["a"], "a") 0 5
      = (Ok (inl (["a"; "c"], "c")), snd (randbelow (RandomSource := lcg) 2 5))
      <-> fst (randbelow (RandomSource := lcg) 2 5) = 1).
Proof.
  apply (uniform_walk_samples_uniformly (R := lcg)
           {| order := 1; transitions := [("a", [("b", 3); ("c", 1)])] |}
           ["a"] "a" 0 5 [("b", 3); ("c", 1)] 1 "c" 1
           eq_refl eq_refl eq_refl).
Defined.

(* ================================================================== *)
(** * Further properties of serialisation *)
(* ================================================================== *)

(** X16.  Loading and saving again keeps the two entries and nothing else:
    when [from_dict(d)] returns an object, [to_dict] of that object is the
    mapping of exactly the [order] and [transitions] entries of [d], in that
    order, any other entry of [d] being dropped; and that mapping loads back
    to the same object. *)
Theorem to_dict_from_dict (d : value) (o : instance)
  (Hload : from_dict d = Ok o) :
  (exists kvs ord t,
     d = VDict kvs
     /\ dict_get "order" kvs = Some ord
     /\ dict_get "transitions" kvs = Some t
     /\ to_dict o = VDict [("order", ord); ("transitions", t)])
  /\ from_dict (to_dict o) = Ok o.
Proof.
  unfold from_dict, subscript, dict_getitem, init_value in Hload.
  destruct d as [| | | | | |kvs]; try discriminate.
  destruct (dict_get "order" kvs) as [ord|] eqn:Eo; [|discriminate].
  cbn [rbind] in Hload.
  destruct (le_zero ord) as [[|]|] eqn:El; cbn [rbind] in Hload;
    try discriminate.
  cbn [inst_order] in Hload.
  destruct (dict_get "transitions" kvs) as [t|] eqn:Et; [|discriminate].
  cbn [rbind] in Hload. injection Hload as <-. split.
  - exists kvs, ord, t. repeat split; assumption.
  - apply from_dict_to_dict_instance. now apply le_zero_not_le_zero.
Qed.

Lemma to_dict_from_dict_witness :
  (exists kvs ord t,
     VDict [("note", VStr "x"); ("transitions", VInt 5); ("order", VInt 2)]
     = VDict kvs
     /\ dict_get "order" kvs = Some ord
     /\ dict_get "transitions" kvs = Some t
     /\ to_dict {| inst_order := VInt 2; inst_transitions := VInt 5 |}
        = VDict [("order", ord); ("transitions", t)])
  /\ from_dict (to_dict {| inst_order := VInt 2; inst_transitions := VInt 5 |})
     = Ok {| inst_order := VInt 2; inst_transitions := VInt 5 |}.
Proof.
  apply (to_dict_from_dict
           (VDict [("note", VStr "x"); ("transitions", VInt 5);
                   ("order", VInt 2)])
           {| inst_order := VInt 2; inst_transitions := VInt 5 |}).
  reflexivity.
Defined.

(* ================================================================== *)
(** * The embedded copy against the copy that stops at a dead end *)
(* ================================================================== *)

Section Refinement.
Context {R : RandomSource}.

(** A walk of the embedded copy that returns is, step for step, a walk of
    [run_1768562193727]. *)
Lemma walk_agrees_with_membership_copy (m : MarkovChain) (xs : list Z) :
  forall st g st' g',
    for_m (walk_step m) xs st g = (Ok st', g') ->
    for_break (Run1768562193727.walk_step m) xs st g = (Ok st', g').
Proof.
  induction xs as [|x xs IH]; intros [res context] g st' g' Hrun.
  - exact Hrun.
  - cbn [for_m for_break] in *. unfold mbind in *.
    destruct (dict_get context (transitions m)) as [inner|] eqn:Hget.
    + rewrite (walk_step_found _ _ _ _ _ _ Hget) in Hrun.
      unfold Run1768562193727.walk_step. rewrite Hget.
      destruct inner as [|kv inner']; [discriminate|].
      unfold mbind.
      destruct (choices1 _ _ g) as [[ch|e] g1]; [|discriminate].
      unfold mret. now apply IH.
    + rewrite walk_step_dead_end in Hrun by exact Hget. discriminate.
Qed.

(** X17.  Whenever the embedded [generate] returns a string, the [generate]
    of [run_1768562193727] returns the same string and leaves the generator
    in the same state, on a well-formed model and with a seed that, if it has
    [order] characters, is a key of the table: the two copies differ only
    where the embedded one raises. *)
Theorem membership_copy_extends_generate (m : MarkovChain) (length : Z)
  (seed : option string) (random_seed : option Z) (g : rng) (out : string)
  (Hwf : wf_model m = true)
  (Hseed : forall s, seed = Some s -> len s = order m ->
                     dict_contains s (transitions m) = true)
  (Hout : fst (generate m length seed random_seed g) = Ok out) :
  Run1768562193727.generate m length seed random_seed g
  = generate m length seed random_seed g.
Proof.
  unfold Run1768562193727.generate, generate, mbind in *.
  destruct (reseed random_seed g) as [[[]|e] g0]; [|reflexivity].
  assert (Hctx : Run1768562193727.initial_context m seed g0
                 = initial_context m seed g0).
  { unfold Run1768562193727.initial_context, initial_context.
    destruct seed as [s|]; [|reflexivity].
    destruct (Z.eqb_spec (len s) (order m)) as [E|E].
    - rewrite (Hseed s eq_refl E).
      destruct (Z.ltb_spec (len s) (order m)) as [|_]; [lia|]. cbn [orb negb].
      rewrite <- E. rewrite <- (append_empty_r s) at 1.
      now rewrite str_slice_prefix.
    - destruct (dict_contains s (transitions m)) eqn:Es.
      + apply dict_get_in_keys in Es. apply (key_length m s Hwf) in Es.
        contradiction.
      + now rewrite orb_true_r. }
  rewrite Hctx.
  destruct (initial_context m seed g0) as [[c|e] g1]; [|reflexivity].
  destruct (for_m _ _ _ g1) as [[st|e] g2] eqn:Ew; [|discriminate].
  now rewrite (walk_agrees_with_membership_copy _ _ _ _ _ _ Ew).
Qed.
End Refinement.

Lemma membership_copy_extends_generate_witness :
  Run1768562193727.generate (R := lcg)
    {| order := 1; transitions := [("a", [("b", 1)]); ("b", [("a", 1)])] |}
    5 (Some "a") (Some 0) 0
  = generate (R := lcg)
      {| order := 1; transitions := [("a", [("b", 1)]); ("b", [("a", 1)])] |}
      5 (Some "a") (Some 0) 0.
Proof.
  apply (membership_copy_extends_generate (R := lcg)
           {| order := 1;
              transitions := [("a", [("b", 1)]); ("b", [("a", 1)])] |}
           5 (Some "a") (Some 0) 0 "ababa").
  - reflexivity.
  - intros s [= <-] _. reflexivity.
  - vm_compute. reflexivity.
Defined.
